(** * Quadmesh function-space topology: DOF indexing on quadrilateral meshes

    A shallow embedding of [warp/fem/space/quadmesh_function_space.py]:
    the quad-edge table builder ([_find_edge_index_in_quad] and
    [_compute_quad_edge_indices_kernel]), the node counts and the
    [element_node_index] functions of the bipolynomial and serendipity
    topologies, the constructor's configuration checks and the per-device
    argument cache.

    Conventions.  Warp [int]s are modelled as [Z]; every quantity handled
    here is an index or a count of a mesh, assumed to fit the machine word.
    Integer division is written with the floor division of [Z]; inside a
    kernel it truncates, which is the same on the non-negative node
    indices considered here.  Device arrays are lists; Warp performs no
    bounds check, so a read or a write outside an array has no specified
    outcome and is modelled as [None].  All functions that touch arrays
    therefore live in the option monad. *)

From stdpp Require Import base option list gmap strings pretty.
From Stdlib Require Import ZArith Lia.

Open Scope Z_scope.

(** ** Vectors and arrays *)

(** [wp.vec2i] *)
Record vec2i := Vec2i { v2_0 : Z; v2_1 : Z }.

(** [wp.vec4i], also one row of an array of shape [(n, 4)] *)
Record vec4i := Vec4i { v4_0 : Z; v4_1 : Z; v4_2 : Z; v4_3 : Z }.

Global Instance vec2i_eq_dec : EqDecision vec2i.
Proof. solve_decision. Defined.

Global Instance vec4i_eq_dec : EqDecision vec4i.
Proof. solve_decision. Defined.

(** [v[k]] on a [vec4i] *)
Definition vec4_get (v : vec4i) (k : Z) : option Z :=
  if decide (k = 0) then Some (v4_0 v)
  else if decide (k = 1) then Some (v4_1 v)
  else if decide (k = 2) then Some (v4_2 v)
  else if decide (k = 3) then Some (v4_3 v)
  else None.

(** [v[k] = x] on a [vec4i] *)
Definition vec4_set (v : vec4i) (k x : Z) : option vec4i :=
  if decide (k = 0) then Some (Vec4i x (v4_1 v) (v4_2 v) (v4_3 v))
  else if decide (k = 1) then Some (Vec4i (v4_0 v) x (v4_2 v) (v4_3 v))
  else if decide (k = 2) then Some (Vec4i (v4_0 v) (v4_1 v) x (v4_3 v))
  else if decide (k = 3) then Some (Vec4i (v4_0 v) (v4_1 v) (v4_2 v) x)
  else None.

(** [a[i]] on a one-dimensional array *)
Definition arr_get {A : Type} (a : list A) (i : Z) : option A :=
  if decide (0 ≤ i) then a !! Z.to_nat i else None.

(** [a[i, k]] on an array of shape [(n, 4)] *)
Definition arr2_get (a : list vec4i) (i k : Z) : option Z :=
  row ← arr_get a i; vec4_get row k.

(** [a[i, k] = x] on an array of shape [(n, 4)] *)
Definition arr2_set (a : list vec4i) (i k x : Z) : option (list vec4i) :=
  row ← arr_get a i;
  row' ← vec4_set row k x;
  Some (<[Z.to_nat i := row']> a).

(** [wp.select(cond, arg1, arg2)].  The builtin belongs to the Warp
    runtime and is not defined in the file embedded here.  Its reference
    documentation reads: select between two arguments, if [cond] is false
    then return [arg1], otherwise return [arg2]; the native
    implementation is [cond ? arg2 : arg1]. *)
Definition wp_select {A : Type} (cond : bool) (arg1 arg2 : A) : A :=
  if cond then arg2 else arg1.

(** ** The mesh *)

(** The geometry [Quadmesh2D] as this file consumes it: the three
    adjacency arrays and the three counts.  [side_count] and [cell_count]
    are the first dimensions of the edge and quad arrays. *)
Module Quadmesh2D.
Record t := Build {
  vertex_count : Z;
  quad_vertex_indices : list vec4i;
  edge_vertex_indices : list vec2i;
  edge_quad_indices : list vec2i
}.

Definition side_count (m : t) : Z := Z.of_nat (length (edge_vertex_indices m)).
Definition cell_count (m : t) : Z := Z.of_nat (length (quad_vertex_indices m)).
End Quadmesh2D.

(** [Quadmesh2DTopologyArg] *)
Module Quadmesh2DTopologyArg.
Record t := Build {
  edge_vertex_indices : list vec2i;
  quad_edge_indices : list vec4i;
  vertex_count : Z;
  edge_count : Z
}.
End Quadmesh2DTopologyArg.

(** ** Topology builder *)

(** The test of the loop body of [_find_edge_index_in_quad]. *)
Definition edge_matches (edge_vtx : vec2i) (a b : Z) : bool :=
  (bool_decide (v2_0 edge_vtx = a) && bool_decide (v2_1 edge_vtx = b))
  || (bool_decide (v2_1 edge_vtx = a) && bool_decide (v2_0 edge_vtx = b)).

(** [for k in ks: if ...: return k] followed by [return 3] *)
Fixpoint find_edge_loop (edge_vtx : vec2i) (quad_vtx : vec4i) (ks : list Z) : option Z :=
  match ks with
  | [] => Some 3
  | k :: ks' =>
      a ← vec4_get quad_vtx k;
      b ← vec4_get quad_vtx (k + 1);
      if edge_matches edge_vtx a b then Some k
      else find_edge_loop edge_vtx quad_vtx ks'
  end.

Definition _find_edge_index_in_quad (edge_vtx : vec2i) (quad_vtx : vec4i) : option Z :=
  find_edge_loop edge_vtx quad_vtx (seqZ 0 3).

(** One thread [e = wp.tid()] of [_compute_quad_edge_indices_kernel],
    as a transformer of the output array [quad_edge_indices]. *)
Definition _compute_quad_edge_indices_kernel
    (edge_quad_indices edge_vertex_indices : list vec2i)
    (quad_vertex_indices : list vec4i)
    (quad_edge_indices : list vec4i) (e : Z) : option (list vec4i) :=
  edge_vtx ← arr_get edge_vertex_indices e;
  edge_quads ← arr_get edge_quad_indices e;
  let q0 := v2_0 edge_quads in
  q0_vtx ← arr_get quad_vertex_indices q0;
  q0_edge ← _find_edge_index_in_quad edge_vtx q0_vtx;
  quad_edge_indices ← arr2_set quad_edge_indices q0 q0_edge e;
  let q1 := v2_1 edge_quads in
  if decide (q1 ≠ q0) then
    t1_vtx ← arr_get quad_vertex_indices q1;
    t1_edge ← _find_edge_index_in_quad edge_vtx t1_vtx;
    arr2_set quad_edge_indices q1 t1_edge e
  else Some quad_edge_indices.

(** [wp.launch]: the threads of a launch run in no specified order; a
    launch is modelled by running the kernel once per thread index along
    a schedule. *)
Fixpoint launch (kernel : list vec4i → Z → option (list vec4i))
    (schedule : list Z) (out : list vec4i) : option (list vec4i) :=
  match schedule with
  | [] => Some out
  | e :: rest => out' ← kernel out e; launch kernel rest out'
  end.

(** [_compute_quad_edge_indices].  [wp.empty] allocates [cell_count] rows
    of unspecified content, here [uninit]; the launch has one thread per
    entry of [edge_quad_indices]. *)
Definition _compute_quad_edge_indices (mesh : Quadmesh2D.t)
    (uninit : list vec4i) (schedule : list Z) : option (list vec4i) :=
  launch (_compute_quad_edge_indices_kernel
            (Quadmesh2D.edge_quad_indices mesh)
            (Quadmesh2D.edge_vertex_indices mesh)
            (Quadmesh2D.quad_vertex_indices mesh))
         schedule uninit.

(** The schedules of the launch of [_compute_quad_edge_indices]. *)
Definition is_schedule (mesh : Quadmesh2D.t) (schedule : list Z) : Prop :=
  schedule ≡ₚ seqZ 0 (Z.of_nat (length (Quadmesh2D.edge_quad_indices mesh))).

(** ** Shape functions *)

(** What this file reads of a [ShapeFunction]: its class (the dispatcher
    tests it with [isinstance]), its polynomial family, its order, its
    node count per element and its name. *)
Inductive shape_class :=
  | SquareSerendipityShapeFunctions
  | SquareBipolynomialShapeFunctions
  | OtherShapeFunctions.

Global Instance shape_class_eq_dec : EqDecision shape_class.
Proof. solve_decision. Defined.

Module ShapeFunction.
Record t {Polynomial : Type} := Build {
  class : shape_class;
  family : Polynomial;
  ORDER : Z;
  NODES_PER_ELEMENT : Z;
  name : string
}.
Global Arguments t : clear implicits.
End ShapeFunction.

(** Node categories of [SquareSerendipityShapeFunctions]. *)
Inductive node_type := VERTEX | EDGE_X | EDGE_Y.

Global Instance node_type_eq_dec : EqDecision node_type.
Proof. solve_decision. Defined.

(** ** Bipolynomial topology *)

(** The [return] statements of the bipolynomial [element_node_index], in
    source order: a vertex lookup at local vertex [k], an edge node on
    local slot [k], the interior node. *)
Inductive return_site :=
  | ReturnVertex (k : Z)
  | ReturnEdge (k : Z)
  | ReturnInterior.

Global Instance return_site_eq_dec : EqDecision return_site.
Proof. solve_decision. Defined.

Module Quadmesh2DBipolynomialSpaceTopology.

Definition node_count (mesh : Quadmesh2D.t) (ORDER : Z) : Z :=
  let INTERIOR_NODES_PER_SIDE := Z.max 0 (ORDER - 1) in
  let INTERIOR_NODES_PER_CELL := INTERIOR_NODES_PER_SIDE ^ 2 in
  Quadmesh2D.vertex_count mesh
  + Quadmesh2D.side_count mesh * INTERIOR_NODES_PER_SIDE
  + Quadmesh2D.cell_count mesh * INTERIOR_NODES_PER_CELL.

(** The four edge blocks of [element_node_index] differ in the slot
    and in the two arguments handed to [wp.select]; [arg1] and [arg2]
    are given in the order of the source. *)
Definition edge_node (ORDER : Z) (geo_arg : Quadmesh2D.t)
    (topo_arg : Quadmesh2DTopologyArg.t) (element_index : Z)
    (slot arg1 arg2 : Z) : option Z :=
  side_index ← arr2_get (Quadmesh2DTopologyArg.quad_edge_indices topo_arg) element_index slot;
  local_vs ← arr2_get (Quadmesh2D.quad_vertex_indices geo_arg) element_index slot;
  edge ← arr_get (Quadmesh2DTopologyArg.edge_vertex_indices topo_arg) side_index;
  let global_vs := v2_0 edge in
  let index_in_side := wp_select (bool_decide (local_vs = global_vs)) arg1 arg2 - 1 in
  Some (Quadmesh2DTopologyArg.vertex_count topo_arg + (ORDER - 1) * side_index + index_in_side).

(** [element_node_index], each result paired with the [return]
    statement that produced it. *)
Definition element_node_index_at (ORDER : Z) (geo_arg : Quadmesh2D.t)
    (topo_arg : Quadmesh2DTopologyArg.t)
    (element_index node_index_in_elt : Z) : option (return_site * Z) :=
  let INTERIOR_NODES_PER_SIDE := Z.max 0 (ORDER - 1) in
  let INTERIOR_NODES_PER_CELL := INTERIOR_NODES_PER_SIDE ^ 2 in
  let node_i := node_index_in_elt `div` (ORDER + 1) in
  let node_j := node_index_in_elt - (ORDER + 1) * node_i in
  let vertex k :=
    v ← arr2_get (Quadmesh2D.quad_vertex_indices geo_arg) element_index k;
    Some (ReturnVertex k, v) in
  let edge k arg1 arg2 :=
    r ← edge_node ORDER geo_arg topo_arg element_index k arg1 arg2;
    Some (ReturnEdge k, r) in
  if decide (node_i = 0) then
    if decide (node_j = 0) then vertex 0
    else if decide (node_j = ORDER) then vertex 3
    else (* 3-0 edge *) edge 3 (ORDER - node_j) node_j
  else if decide (node_i = ORDER) then
    if decide (node_j = 0) then vertex 1
    else if decide (node_j = ORDER) then vertex 2
    else (* 1-2 edge *) edge 1 node_j (ORDER - node_j)
  else if decide (node_j = 0) then
    (* 0-1 edge *) edge 0 node_i (ORDER - node_i)
  else if decide (node_j = ORDER) then
    (* 2-3 edge *) edge 2 (ORDER - node_i) node_i
  else
    Some (ReturnInterior,
          Quadmesh2DTopologyArg.vertex_count topo_arg
          + Quadmesh2DTopologyArg.edge_count topo_arg * INTERIOR_NODES_PER_SIDE
          + element_index * INTERIOR_NODES_PER_CELL
          + (node_i - 1) * INTERIOR_NODES_PER_SIDE
          + node_j
          - 1).

Definition element_node_index (ORDER : Z) (geo_arg : Quadmesh2D.t)
    (topo_arg : Quadmesh2DTopologyArg.t)
    (element_index node_index_in_elt : Z) : option Z :=
  snd <$> element_node_index_at ORDER geo_arg topo_arg element_index node_index_in_elt.

End Quadmesh2DBipolynomialSpaceTopology.

(** ** Serendipity topology *)

Module Quadmesh2DSerendipitySpaceTopology.

Definition node_count (mesh : Quadmesh2D.t) (ORDER : Z) : Z :=
  Quadmesh2D.vertex_count mesh + (ORDER - 1) * Quadmesh2D.side_count mesh.

Definition SHAPE_TO_QUAD_IDX : vec4i := Vec4i 0 3 1 2.

Section element_node_index.
(** The two classifiers come from the shape-function layer:
    [self._shape.node_type_and_type_index] and
    [SquareSerendipityShapeFunctions.side_offset_and_index]. *)
Variable node_type_and_type_index : Z → node_type * Z.
Variable side_offset_and_index : Z → Z * Z.

(** The slot selection of [element_node_index]: the pair
    [(side_start, index_in_side)] after the two nested tests. *)
Definition side_start_and_index (ORDER : Z) (node_type : node_type)
    (side_offset index_in_side : Z) : Z * Z :=
  if decide (node_type = EDGE_X) then
    if decide (side_offset = 0) then (0, index_in_side)
    else (2, ORDER - 2 - index_in_side)
  else
    if decide (side_offset = 0) then (3, ORDER - 2 - index_in_side)
    else (1, index_in_side).

Definition element_node_index (ORDER : Z) (cell_arg : Quadmesh2D.t)
    (topo_arg : Quadmesh2DTopologyArg.t)
    (element_index node_index_in_elt : Z) : option Z :=
  let '(node_type, type_index) := node_type_and_type_index node_index_in_elt in
  if decide (node_type = VERTEX) then
    k ← vec4_get SHAPE_TO_QUAD_IDX type_index;
    arr2_get (Quadmesh2D.quad_vertex_indices cell_arg) element_index k
  else
    let '(side_offset, index_in_side) := side_offset_and_index type_index in
    let '(side_start, index_in_side) :=
      side_start_and_index ORDER node_type side_offset index_in_side in
    side_index ← arr2_get (Quadmesh2DTopologyArg.quad_edge_indices topo_arg) element_index side_start;
    local_vs ← arr2_get (Quadmesh2D.quad_vertex_indices cell_arg) element_index side_start;
    edge ← arr_get (Quadmesh2DTopologyArg.edge_vertex_indices topo_arg) side_index;
    let global_vs := v2_0 edge in
    let index_in_side :=
      if decide (local_vs ≠ global_vs) then ORDER - 2 - index_in_side
      else index_in_side in
    Some (Quadmesh2DTopologyArg.vertex_count topo_arg + (ORDER - 1) * side_index + index_in_side).
End element_node_index.

End Quadmesh2DSerendipitySpaceTopology.

(** ** The node indices as compiled *)

(** Inside a kernel a Warp [int] has 32 bits in two's complement: a sum,
    a difference or a product that leaves [-2^31, 2^31) wraps around,
    and [//] on two [int]s is the division of C++, which truncates. *)
Module int32.
Definition max_value : Z := 2 ^ 31 - 1.
Definition wrap (x : Z) : Z := (x + 2 ^ 31) `mod` 2 ^ 32 - 2 ^ 31.
Definition add (a b : Z) : Z := wrap (a + b).
Definition sub (a b : Z) : Z := wrap (a - b).
Definition mul (a b : Z) : Z := wrap (a * b).
Definition floordiv (a b : Z) : Z := wrap (Z.quot a b).
End int32.

(** The two [element_node_index] functions once more, with every
    operation of the source carried out on 32 bits, in the order in
    which the source writes it.  The arguments, the fields of the two
    structs and the entries of the arrays are [int]s already; [ORDER],
    [INTERIOR_NODES_PER_SIDE] and [INTERIOR_NODES_PER_CELL] are computed
    on the host and enter the function as constants. *)
Module Compiled.

Local Infix "⊞" := int32.add (at level 50, left associativity).
Local Infix "⊟" := int32.sub (at level 50, left associativity).
Local Infix "⊠" := int32.mul (at level 40, left associativity).

Definition bipolynomial_edge_node (ORDER : Z) (geo_arg : Quadmesh2D.t)
    (topo_arg : Quadmesh2DTopologyArg.t) (element_index : Z)
    (slot arg1 arg2 : Z) : option Z :=
  side_index ← arr2_get (Quadmesh2DTopologyArg.quad_edge_indices topo_arg) element_index slot;
  local_vs ← arr2_get (Quadmesh2D.quad_vertex_indices geo_arg) element_index slot;
  edge ← arr_get (Quadmesh2DTopologyArg.edge_vertex_indices topo_arg) side_index;
  let global_vs := v2_0 edge in
  let index_in_side := wp_select (bool_decide (local_vs = global_vs)) arg1 arg2 ⊟ 1 in
  Some (Quadmesh2DTopologyArg.vertex_count topo_arg ⊞ (ORDER ⊟ 1) ⊠ side_index
        ⊞ index_in_side).

(** [element_node_index] of [Quadmesh2DBipolynomialSpaceTopology] *)
Definition bipolynomial_element_node_index (ORDER : Z) (geo_arg : Quadmesh2D.t)
    (topo_arg : Quadmesh2DTopologyArg.t)
    (element_index node_index_in_elt : Z) : option Z :=
  let INTERIOR_NODES_PER_SIDE := Z.max 0 (ORDER - 1) in
  let INTERIOR_NODES_PER_CELL := INTERIOR_NODES_PER_SIDE ^ 2 in
  let node_i := int32.floordiv node_index_in_elt (ORDER ⊞ 1) in
  let node_j := node_index_in_elt ⊟ (ORDER ⊞ 1) ⊠ node_i in
  let vertex k :=
    arr2_get (Quadmesh2D.quad_vertex_indices geo_arg) element_index k in
  let edge := bipolynomial_edge_node ORDER geo_arg topo_arg element_index in
  if decide (node_i = 0) then
    if decide (node_j = 0) then vertex 0
    else if decide (node_j = ORDER) then vertex 3
    else (* 3-0 edge *) edge 3 (ORDER ⊟ node_j) node_j
  else if decide (node_i = ORDER) then
    if decide (node_j = 0) then vertex 1
    else if decide (node_j = ORDER) then vertex 2
    else (* 1-2 edge *) edge 1 node_j (ORDER ⊟ node_j)
  else if decide (node_j = 0) then
    (* 0-1 edge *) edge 0 node_i (ORDER ⊟ node_i)
  else if decide (node_j = ORDER) then
    (* 2-3 edge *) edge 2 (ORDER ⊟ node_i) node_i
  else
    Some (Quadmesh2DTopologyArg.vertex_count topo_arg
          ⊞ Quadmesh2DTopologyArg.edge_count topo_arg ⊠ INTERIOR_NODES_PER_SIDE
          ⊞ element_index ⊠ INTERIOR_NODES_PER_CELL
          ⊞ (node_i ⊟ 1) ⊠ INTERIOR_NODES_PER_SIDE
          ⊞ node_j
          ⊟ 1).

Section serendipity.
Variable node_type_and_type_index : Z → node_type * Z.
Variable side_offset_and_index : Z → Z * Z.

Definition serendipity_side_start_and_index (ORDER : Z) (node_type : node_type)
    (side_offset index_in_side : Z) : Z * Z :=
  if decide (node_type = EDGE_X) then
    if decide (side_offset = 0) then (0, index_in_side)
    else (2, ORDER ⊟ 2 ⊟ index_in_side)
  else
    if decide (side_offset = 0) then (3, ORDER ⊟ 2 ⊟ index_in_side)
    else (1, index_in_side).

(** [element_node_index] of [Quadmesh2DSerendipitySpaceTopology] *)
Definition serendipity_element_node_index (ORDER : Z) (cell_arg : Quadmesh2D.t)
    (topo_arg : Quadmesh2DTopologyArg.t)
    (element_index node_index_in_elt : Z) : option Z :=
  let '(node_type, type_index) := node_type_and_type_index node_index_in_elt in
  if decide (node_type = VERTEX) then
    k ← vec4_get Quadmesh2DSerendipitySpaceTopology.SHAPE_TO_QUAD_IDX type_index;
    arr2_get (Quadmesh2D.quad_vertex_indices cell_arg) element_index k
  else
    let '(side_offset, index_in_side) := side_offset_and_index type_index in
    let '(side_start, index_in_side) :=
      serendipity_side_start_and_index ORDER node_type side_offset index_in_side in
    side_index ← arr2_get (Quadmesh2DTopologyArg.quad_edge_indices topo_arg) element_index side_start;
    local_vs ← arr2_get (Quadmesh2D.quad_vertex_indices cell_arg) element_index side_start;
    edge ← arr_get (Quadmesh2DTopologyArg.edge_vertex_indices topo_arg) side_index;
    let global_vs := v2_0 edge in
    let index_in_side :=
      if decide (local_vs ≠ global_vs) then ORDER ⊟ 2 ⊟ index_in_side
      else index_in_side in
    Some (Quadmesh2DTopologyArg.vertex_count topo_arg ⊞ (ORDER ⊟ 1) ⊠ side_index
          ⊞ index_in_side).
End serendipity.

End Compiled.

(** ** Construction and dispatch *)

Inductive exception := ValueError (msg : string).

(** How a call on the host ends: it raises, it returns, or a kernel it
    launched left the arrays it was given (no specified outcome, and no
    error either). *)
Inductive outcome (A : Type) :=
  | Raised (exn : exception)
  | Unspecified
  | Returned (a : A).
Global Arguments Raised {A} exn.
Global Arguments Unspecified {A}.
Global Arguments Returned {A} a.

(** Device work a host call schedules, in order: [wp.empty] with its
    shape, [wp.launch] with its dimension. *)
Inductive device_event :=
  | WpEmpty (rows cols : Z)
  | WpLaunch (dim : Z).

(** The two concrete topology classes. *)
Inductive topology_class :=
  | BipolynomialSpaceTopology
  | SerendipitySpaceTopology.

Module Quadmesh2DSpaceTopology.

Record t {Polynomial : Type} := Build {
  _mesh : Quadmesh2D.t;
  _shape : ShapeFunction.t Polynomial;
  _quad_edge_indices : list vec4i
}.
Global Arguments t : clear implicits.

Section init.
Context {Polynomial : Type}.

(** [warp.fem.polynomial.is_closed], from the polynomial layer. *)
Variable is_closed : Polynomial → bool.

(** [Quadmesh2DSpaceTopology.__init__].  [uninit] is the content of the
    freshly allocated table and [schedule] the order in which the threads
    of the launch run.  The result is paired with the device work done.
    The base class initialiser only records its arguments. *)
Definition __init__ (mesh : Quadmesh2D.t) (shape : ShapeFunction.t Polynomial)
    (uninit : list vec4i) (schedule : list Z)
    : list device_event * outcome (t Polynomial) :=
  if negb (is_closed (ShapeFunction.family shape)) then
    ([], Raised (ValueError
       "A closed polynomial family is required to define a continuous function space"))
  else
    let work :=
      [WpEmpty (Quadmesh2D.cell_count mesh) 4;
       WpLaunch (Z.of_nat (length (Quadmesh2D.edge_quad_indices mesh)))] in
    match _compute_quad_edge_indices mesh uninit schedule with
    | Some quad_edge_indices =>
        (work, Returned (Build Polynomial mesh shape quad_edge_indices))
    | None => (work, Unspecified)
    end.

(** The initialisers of the two subclasses call the one above and then
    bind their [element_node_index]; the topology is tagged with its
    class.  [forward_base_topology] is modelled as the call of the class
    it is given. *)
Definition forward_base_topology (cls : topology_class) (mesh : Quadmesh2D.t)
    (shape : ShapeFunction.t Polynomial) (uninit : list vec4i) (schedule : list Z)
    : list device_event * outcome (topology_class * t Polynomial) :=
  match __init__ mesh shape uninit schedule with
  | (work, Raised exn) => (work, Raised exn)
  | (work, Unspecified) => (work, Unspecified)
  | (work, Returned topo) => (work, Returned (cls, topo))
  end.

Definition make_quadmesh_space_topology (mesh : Quadmesh2D.t)
    (shape : ShapeFunction.t Polynomial) (uninit : list vec4i) (schedule : list Z)
    : list device_event * outcome (topology_class * t Polynomial) :=
  if decide (ShapeFunction.class shape = SquareSerendipityShapeFunctions) then
    forward_base_topology SerendipitySpaceTopology mesh shape uninit schedule
  else if decide (ShapeFunction.class shape = SquareBipolynomialShapeFunctions) then
    forward_base_topology BipolynomialSpaceTopology mesh shape uninit schedule
  else
    ([], Raised (ValueError ("Unsupported shape function " +:+ ShapeFunction.name shape))).

End init.

(** The body of [topo_arg_value]; [.to(device)] moves an array and keeps
    its content. *)
Definition topo_arg_value_body {Polynomial : Type} (self : t Polynomial)
    (device : string) : Quadmesh2DTopologyArg.t :=
  {| Quadmesh2DTopologyArg.quad_edge_indices := _quad_edge_indices self;
     Quadmesh2DTopologyArg.edge_vertex_indices :=
       Quadmesh2D.edge_vertex_indices (_mesh self);
     Quadmesh2DTopologyArg.vertex_count := Quadmesh2D.vertex_count (_mesh self);
     Quadmesh2DTopologyArg.edge_count := Quadmesh2D.side_count (_mesh self) |}.

End Quadmesh2DSpaceTopology.

(** ** Per-device argument cache *)

(** A Warp device as the cache sees it, after [wp.get_device]: the
    alias it goes by and its ordinal. *)
Module Device.
Record t := Build { alias : string; ordinal : Z }.
End Device.

(** A struct of the host heap.  Two results of Python calls are the
    identical struct when they are the same allocation; the identity of
    an allocation is its position in the allocation record. *)
Record allocated (A : Type) := Allocated { identity : nat; contents : A }.
Global Arguments Allocated {A} identity contents.
Global Arguments identity {A} a.
Global Arguments contents {A} a.

(** A run of the body of [topo_arg_value]: [Quadmesh2DTopologyArg()]
    allocates a new struct, which the body fills and returns.  The
    allocation record lists, oldest first, the devices for which the
    body has built a struct; it is written by the body itself, whoever
    calls it. *)
Definition topo_arg_value_run {Polynomial : Type}
    (self : Quadmesh2DSpaceTopology.t Polynomial) (device : Device.t)
    (heap : list Device.t) : allocated Quadmesh2DTopologyArg.t * list Device.t :=
  let arg :=
    Allocated (length heap)
      (Quadmesh2DSpaceTopology.topo_arg_value_body self (Device.alias device)) in
  (arg, heap ++ [device]).

Module cache.

Section cached_arg_value.
Context {Obj A World : Type}.

(** The decorated method; it may act on the world around it. *)
Variable func : Obj → Device.t → World → A * World.

(** Modelled from the spec: the decorator [cached_arg_value] of the
    [cache] module is not part of the embedded sources.  The decorated
    method keeps a map on the object, [cache_attr], from the ordinal of
    a device to the struct built for it: a request for a device whose
    ordinal is not in the map runs the method body and stores what it
    returns, and every request returns the struct stored for the
    ordinal. *)
Definition cached_arg_value (obj : Obj) (device : Device.t)
    (cache_attr : gmap Z A) (world : World) : A * gmap Z A * World :=
  match cache_attr !! Device.ordinal device with
  | Some arg => (arg, cache_attr, world)
  | None =>
      let '(arg, world') := func obj device world in
      (arg, <[Device.ordinal device := arg]> cache_attr, world')
  end.

(** A sequence of requests on one object, with the values returned. *)
Fixpoint requests (obj : Obj) (devices : list Device.t)
    (cache_attr : gmap Z A) (world : World) : list A * gmap Z A * World :=
  match devices with
  | [] => ([], cache_attr, world)
  | device :: rest =>
      let '(arg, cache_attr', world') := cached_arg_value obj device cache_attr world in
      let '(args, cache_attr'', world'') := requests obj rest cache_attr' world' in
      (arg :: args, cache_attr'', world'')
  end.

End cached_arg_value.

End cache.

(** [topo_arg_value] as decorated: [@cache.cached_arg_value]. *)
Definition topo_arg_value {Polynomial : Type}
    (self : Quadmesh2DSpaceTopology.t Polynomial) (device : Device.t)
    (cache_attr : gmap Z (allocated Quadmesh2DTopologyArg.t)) (heap : list Device.t)
    : allocated Quadmesh2DTopologyArg.t
      * gmap Z (allocated Quadmesh2DTopologyArg.t) * list Device.t :=
  cache.cached_arg_value topo_arg_value_run self device cache_attr heap.

(** ** Geometry of the reference element *)

(** Local nodes sit on the grid [[0, ORDER] x [0, ORDER]].  The corners
    of the grid are the local vertices 0, 1, 2, 3 in cyclic order, and
    local slot [k] is the side from local vertex [k] to local vertex
    [(k + 1) mod 4]. *)
Definition corner_point (ORDER k : Z) : Z * Z :=
  if decide (k = 0) then (0, 0)
  else if decide (k = 1) then (ORDER, 0)
  else if decide (k = 2) then (ORDER, ORDER)
  else (0, ORDER).

(** The grid point [pos] steps away from the first vertex of slot [k]. *)
Definition side_point (ORDER k pos : Z) : Z * Z :=
  let '(i0, j0) := corner_point ORDER k in
  let '(i1, j1) := corner_point ORDER ((k + 1) `mod` 4) in
  (i0 + pos * ((i1 - i0) `div` ORDER), j0 + pos * ((j1 - j0) `div` ORDER)).

Inductive location :=
  | AtCorner (k : Z)
  | OnSide (k pos : Z)
  | Inside (i j : Z).

Global Instance location_eq_dec : EqDecision location.
Proof. solve_decision. Defined.

(** Where the grid point [(i, j)] lies: at a corner, on a side (with its
    distance from the first vertex of the side), or inside. *)
Definition locate (ORDER i j : Z) : option location :=
  if decide (0 ≤ i ≤ ORDER ∧ 0 ≤ j ≤ ORDER) then
    match list_find (λ k, corner_point ORDER k = (i, j)) (seqZ 0 4) with
    | Some (_, k) => Some (AtCorner k)
    | None =>
        if decide (j = 0) then Some (OnSide 0 i)
        else if decide (i = ORDER) then Some (OnSide 1 j)
        else if decide (j = ORDER) then Some (OnSide 2 (ORDER - i))
        else if decide (i = 0) then Some (OnSide 3 (ORDER - j))
        else Some (Inside i j)
    end
  else None.

(** Grid coordinates of a local node of the bipolynomial element. *)
Definition bipolynomial_node_coords (ORDER node_index_in_elt : Z) : Z * Z :=
  (node_index_in_elt `div` (ORDER + 1), node_index_in_elt `mod` (ORDER + 1)).

(** Modelled from the spec: the node placement of the serendipity shape
    functions is not part of the embedded sources.  A vertex node of type
    index [t] is the corner [(t div 2, t mod 2)] of the unit square; an
    edge node along the first (second) tensor direction with pair
    [(side_offset, index_in_side)] is the [1 + index_in_side]-th grid
    point along that direction, on the near side when the offset is zero
    and on the far side otherwise. *)
Definition serendipity_node_coords (node_type_and_type_index : Z → node_type * Z)
    (side_offset_and_index : Z → Z * Z) (ORDER node_index_in_elt : Z) : Z * Z :=
  let '(node_type, type_index) := node_type_and_type_index node_index_in_elt in
  match node_type with
  | VERTEX => ((type_index `div` 2) * ORDER, (type_index `mod` 2) * ORDER)
  | EDGE_X =>
      let '(side_offset, index_in_side) := side_offset_and_index type_index in
      (1 + index_in_side, if decide (side_offset = 0) then 0 else ORDER)
  | EDGE_Y =>
      let '(side_offset, index_in_side) := side_offset_and_index type_index in
      (if decide (side_offset = 0) then 0 else ORDER, 1 + index_in_side)
  end.

(** ** Mesh consistency and physical nodes *)

(** The vertex pair of local slot [k] of a quad. *)
Definition quad_side (quad : vec4i) (k : Z) : option (Z * Z) :=
  a ← vec4_get quad k;
  b ← vec4_get quad ((k + 1) `mod` 4);
  Some (a, b).

(** Edge [e] is incident to quad [q] and joins the two vertices of its
    local slot [k]. *)
Definition edge_on_side (mesh : Quadmesh2D.t) (q k e : Z) : bool :=
  match arr_get (Quadmesh2D.edge_vertex_indices mesh) e,
        arr_get (Quadmesh2D.edge_quad_indices mesh) e,
        arr_get (Quadmesh2D.quad_vertex_indices mesh) q ≫= (λ quad, quad_side quad k) with
  | Some edge_vtx, Some edge_quads, Some (a, b) =>
      (bool_decide (v2_0 edge_quads = q) || bool_decide (v2_1 edge_quads = q))
      && edge_matches edge_vtx a b
  | _, _, _ => false
  end.

(** The edges lying on slot [k] of quad [q]. *)
Definition side_edges (mesh : Quadmesh2D.t) (q k : Z) : list Z :=
  filter (λ e, edge_on_side mesh q k e) (seqZ 0 (Quadmesh2D.side_count mesh)).

Definition side_edge (mesh : Quadmesh2D.t) (q k : Z) : option Z :=
  head (side_edges mesh q k).

Definition vec4_elements (v : vec4i) : list Z := [v4_0 v; v4_1 v; v4_2 v; v4_3 v].

(** A quad names four distinct vertices of the mesh. *)
Definition quad_ok (mesh : Quadmesh2D.t) (quad : vec4i) : bool :=
  forallb (λ v, bool_decide (0 ≤ v < Quadmesh2D.vertex_count mesh)) (vec4_elements quad)
  && bool_decide (NoDup (vec4_elements quad)).

(** The quads listed for an edge exist and have the edge as a side. *)
Definition edge_ok (mesh : Quadmesh2D.t) (e : Z) : bool :=
  match arr_get (Quadmesh2D.edge_quad_indices mesh) e with
  | Some edge_quads =>
      forallb (λ q, existsb (λ k, edge_on_side mesh q k e) (seqZ 0 4))
              [v2_0 edge_quads; v2_1 edge_quads]
  | None => false
  end.

(** Each slot of each quad is targeted by exactly one edge. *)
Definition side_ok (mesh : Quadmesh2D.t) (q k : Z) : bool :=
  bool_decide (length (side_edges mesh q k) = 1%nat).

(** Self-consistency of the adjacency arrays: the precondition of the
    topology builder. *)
Definition mesh_consistent (mesh : Quadmesh2D.t) : bool :=
  bool_decide (0 ≤ Quadmesh2D.vertex_count mesh)
  && bool_decide (length (Quadmesh2D.edge_quad_indices mesh)
                  = length (Quadmesh2D.edge_vertex_indices mesh))
  && forallb (quad_ok mesh) (Quadmesh2D.quad_vertex_indices mesh)
  && forallb (edge_ok mesh) (seqZ 0 (Quadmesh2D.side_count mesh))
  && forallb (λ q, forallb (side_ok mesh q) (seqZ 0 4))
             (seqZ 0 (Quadmesh2D.cell_count mesh)).

(** Every vertex of the mesh is a corner of some quad. *)
Definition vertices_used (mesh : Quadmesh2D.t) : bool :=
  forallb (λ v, existsb (λ quad, bool_decide (v ∈ vec4_elements quad))
                        (Quadmesh2D.quad_vertex_indices mesh))
          (seqZ 0 (Quadmesh2D.vertex_count mesh)).

(** The nodes of the assembled space: a mesh vertex, the point [pos]
    steps away from the canonical first vertex of an edge, a point inside
    a quad. *)
Inductive physical_node :=
  | VertexNode (v : Z)
  | EdgeNode (e pos : Z)
  | CellNode (q i j : Z).

Global Instance physical_node_eq_dec : EqDecision physical_node.
Proof. solve_decision. Defined.

(** The physical node at grid point [(i, j)] of quad [q], read off the
    mesh alone. *)
Definition physical_node_at (mesh : Quadmesh2D.t) (ORDER q : Z) (ij : Z * Z)
    : option physical_node :=
  loc ← locate ORDER ij.1 ij.2;
  match loc with
  | AtCorner k =>
      v ← arr2_get (Quadmesh2D.quad_vertex_indices mesh) q k;
      Some (VertexNode v)
  | OnSide k pos =>
      e ← side_edge mesh q k;
      local_vs ← arr2_get (Quadmesh2D.quad_vertex_indices mesh) q k;
      edge ← arr_get (Quadmesh2D.edge_vertex_indices mesh) e;
      Some (EdgeNode e (if decide (local_vs = v2_0 edge) then pos else ORDER - pos))
  | Inside i j =>
      _ ← arr_get (Quadmesh2D.quad_vertex_indices mesh) q;
      Some (CellNode q i j)
  end.

(** A physical node lies on edge [e]: it is one of its two end vertices
    or one of its interior points. *)
Definition on_edge (mesh : Quadmesh2D.t) (e : Z) (node : physical_node) : Prop :=
  match node with
  | VertexNode v =>
      ∃ edge_vtx, arr_get (Quadmesh2D.edge_vertex_indices mesh) e = Some edge_vtx
                  ∧ (v = v2_0 edge_vtx ∨ v = v2_1 edge_vtx)
  | EdgeNode e' _ => e' = e
  | CellNode _ _ _ => False
  end.

(** The topology argument of a mesh whose table is [quad_edge_indices]. *)
Definition topo_arg_of (mesh : Quadmesh2D.t) (quad_edge_indices : list vec4i)
    : Quadmesh2DTopologyArg.t :=
  {| Quadmesh2DTopologyArg.edge_vertex_indices := Quadmesh2D.edge_vertex_indices mesh;
     Quadmesh2DTopologyArg.quad_edge_indices := quad_edge_indices;
     Quadmesh2DTopologyArg.vertex_count := Quadmesh2D.vertex_count mesh;
     Quadmesh2DTopologyArg.edge_count := Quadmesh2D.side_count mesh |}.

(** The table that the builder is to produce: cell [(q, k)] holds the
    edge lying on slot [k] of quad [q]. *)
Definition table_correct (mesh : Quadmesh2D.t) (quad_edge_indices : list vec4i) : Prop :=
  length quad_edge_indices = length (Quadmesh2D.quad_vertex_indices mesh)
  ∧ ∀ q k, 0 ≤ q < Quadmesh2D.cell_count mesh → 0 ≤ k ≤ 3 →
      arr2_get quad_edge_indices q k = side_edge mesh q k.

(** The physical nodes of a mesh at a given order. *)
Definition physical_node_valid (mesh : Quadmesh2D.t) (ORDER : Z)
    (node : physical_node) : Prop :=
  match node with
  | VertexNode v => 0 ≤ v < Quadmesh2D.vertex_count mesh
  | EdgeNode e pos => 0 ≤ e < Quadmesh2D.side_count mesh ∧ 1 ≤ pos ≤ ORDER - 1
  | CellNode q i j =>
      0 ≤ q < Quadmesh2D.cell_count mesh ∧ 1 ≤ i ≤ ORDER - 1 ∧ 1 ≤ j ≤ ORDER - 1
  end.

(** The numbering of the physical nodes that the bipolynomial topology
    realises: vertices first, then the interior points of the edges,
    then the interior points of the quads. *)
Definition bipolynomial_index_of (mesh : Quadmesh2D.t) (ORDER : Z)
    (node : physical_node) : Z :=
  match node with
  | VertexNode v => v
  | EdgeNode e pos =>
      Quadmesh2D.vertex_count mesh + (ORDER - 1) * e + (ORDER - pos - 1)
  | CellNode q i j =>
      Quadmesh2D.vertex_count mesh + Quadmesh2D.side_count mesh * (ORDER - 1)
      + q * (ORDER - 1) ^ 2 + (i - 1) * (ORDER - 1) + (j - 1)
  end.

(** The numbering that the serendipity topology realises; its elements
    have no interior node. *)
Definition serendipity_index_of (mesh : Quadmesh2D.t) (ORDER : Z)
    (node : physical_node) : option Z :=
  match node with
  | VertexNode v => Some v
  | EdgeNode e pos => Some (Quadmesh2D.vertex_count mesh + (ORDER - 1) * e + (pos - 1))
  | CellNode _ _ _ => None
  end.

(** What the topology expects of the classifiers of the shape-function
    layer on one local node: a vertex node carries one of the four
    vertex indices, an edge node one of the [ORDER - 1] indices of its
    side. *)
Definition serendipity_node_ok (node_type_and_type_index : Z → node_type * Z)
    (side_offset_and_index : Z → Z * Z) (ORDER node_index_in_elt : Z) : Prop :=
  match node_type_and_type_index node_index_in_elt with
  | (VERTEX, type_index) => 0 ≤ type_index ≤ 3
  | (_, type_index) => 0 ≤ (side_offset_and_index type_index).2 ≤ ORDER - 2
  end.

(** And on the element as a whole: its [4 * ORDER] local nodes are the
    four vertices and, on each axis and each side, the [ORDER - 1] edge
    nodes. *)
Definition serendipity_classifier_ok (node_type_and_type_index : Z → node_type * Z)
    (side_offset_and_index : Z → Z * Z) (ORDER : Z) : Prop :=
  (∀ n, 0 ≤ n < 4 * ORDER →
     serendipity_node_ok node_type_and_type_index side_offset_and_index ORDER n)
  ∧ (∀ type_index, 0 ≤ type_index ≤ 3 →
       ∃ n, 0 ≤ n < 4 * ORDER
            ∧ node_type_and_type_index n = (VERTEX, type_index))
  ∧ (∀ node_type (far : bool) index_in_side,
       node_type ≠ VERTEX → 0 ≤ index_in_side ≤ ORDER - 2 →
       ∃ n type_index side_offset,
         0 ≤ n < 4 * ORDER
         ∧ node_type_and_type_index n = (node_type, type_index)
         ∧ side_offset_and_index type_index = (side_offset, index_in_side)
         ∧ (side_offset = 0 ↔ far = false)).

(** ** The kernel node and its property panel *)

(** The two constants of [omni/warp/scripts/kernelnode.py] that the
    property panel imports. *)
Module kernelnode.

Definition MAX_DIMENSIONS : Z := 4.

Definition SUPPORTED_ATTR_TYPES : list string :=
  [
   "bool"; "bool[]";
   "color3f"; "color3f[]";
   "color4f"; "color4f[]";
   "double"; "double[]";
   "float"; "float[]";
   "float2"; "float2[]";
   "float3"; "float3[]";
   "float4"; "float4[]";
   "int"; "int[]";
   "int64"; "int64[]";
   "matrix2d"; "matrix2d[]";
   "matrix3d"; "matrix3d[]";
   "matrix4d"; "matrix4d[]";
   "normal3f"; "normal3f[]";
   "point3f"; "point3f[]";
   "quatf"; "quatf[]";
   "timecode"; "timecode[]";
   "token"; "token[]";
   "uchar"; "uchar[]";
   "uint"; "uint[]";
   "uint64"; "uint64[]";
   "vector3f"; "vector3f[]"
  ].

End kernelnode.

(** The custom layout of the kernel node,
    [templates/template_omni.warp.WarpKernel.py]. *)
Module WarpKernel.

(** What the layout reads of a [UsdPropertyUiEntry]: its name and its
    metadata, a dictionary of dictionaries. *)
Record UsdPropertyUiEntry := Entry {
  prop_name : string;
  metadata : gmap string (gmap string string)
}.

(** The exceptions that [apply] can raise: the [KeyError] of a missing
    dictionary key and its own [RuntimeError]. *)
Inductive exception :=
  | KeyError (key : string)
  | RuntimeError (msg : string).

(** The property builders handed to [CustomLayoutProperty]. *)
Inductive builder :=
  | edit_attrs_prop_builder (types : list string)
  | code_str_prop_builder (prop : UsdPropertyUiEntry)
  | code_file_prop_builder (prop : UsdPropertyUiEntry).

(** One [CustomLayoutProperty] of the frame, with the group it was
    created in. *)
Record CustomLayoutProperty := Property {
  group : string;
  property_name : option string;
  display_name : option string;
  build_fn : option builder
}.

(** [find_prop]: [next] on the generator of the props with the given
    name, and [None] when it is exhausted. *)
Definition find_prop (props : list UsdPropertyUiEntry) (name : string)
    : option UsdPropertyUiEntry :=
  snd <$> list_find (λ p, prop_name p = name) props.

(** [prop.metadata["customData"]["uiName"]] *)
Definition ui_name (prop : UsdPropertyUiEntry) : exception + string :=
  match metadata prop !! "customData" with
  | None => inl (KeyError "customData")
  | Some custom_data =>
      match custom_data !! "uiName" with
      | None => inl (KeyError "uiName")
      | Some name => inr name
      end
  end.

(** The pattern that [apply] repeats in the group [Inputs]: look the
    property up and, when it is there, add it to the frame under its UI
    name. *)
Definition layout_input (props : list UsdPropertyUiEntry) (name : string)
    (build : UsdPropertyUiEntry → option builder)
    (frame : list CustomLayoutProperty) : exception + list CustomLayoutProperty :=
  match find_prop props name with
  | None => inr frame
  | Some prop =>
      match ui_name prop with
      | inl exn => inl exn
      | inr display =>
          inr (frame ++ [Property "Inputs" (Some (prop_name prop)) (Some display)
                                  (build prop)])
      end
  end.

(** [for i in range(dim_count): ...], over the list of the values of [i] *)
Fixpoint layout_dims (props : list UsdPropertyUiEntry) (indices : list Z)
    (frame : list CustomLayoutProperty) : exception + list CustomLayoutProperty :=
  match indices with
  | [] => inr frame
  | i :: rest =>
      match layout_input props ("inputs:dim" +:+ pretty (i + 1)) (λ _, None) frame with
      | inl exn => inl exn
      | inr frame' => layout_dims props rest frame'
      end
  end.

(** [CustomLayout.apply], up to the call of [frame.apply]: the
    properties laid out in the frame, in order, or the exception raised.
    [dim_count_attr] and [code_provider_attr] are the values that
    [og.Controller.get] reads from the two attributes of the node. *)
Definition apply (dim_count_attr : Z) (code_provider_attr : string)
    (props : list UsdPropertyUiEntry) : exception + list CustomLayoutProperty :=
  let frame :=
    [Property "Add and Remove Attributes" None None
       (Some (edit_attrs_prop_builder kernelnode.SUPPORTED_ATTR_TYPES))] in
  match layout_input props "inputs:device" (λ _, None) frame with
  | inl exn => inl exn
  | inr frame =>
  match layout_input props "inputs:dimCount" (λ _, None) frame with
  | inl exn => inl exn
  | inr frame =>
  let dim_count := Z.min (Z.max dim_count_attr 0) kernelnode.MAX_DIMENSIONS in
  match layout_dims props (seqZ 0 dim_count) frame with
  | inl exn => inl exn
  | inr frame =>
  match layout_input props "inputs:codeProvider" (λ _, None) frame with
  | inl exn => inl exn
  | inr frame =>
  let code_provider := code_provider_attr in
  if decide (code_provider = "embedded") then
    layout_input props "inputs:codeStr"
      (λ prop, Some (code_str_prop_builder prop)) frame
  else if decide (code_provider = "file") then
    layout_input props "inputs:codeFile"
      (λ prop, Some (code_file_prop_builder prop)) frame
  else
    inl (RuntimeError ("Unexpected code provider '" +:+ code_provider +:+ "'"))
  end end end end.

(** An entry of the group [Inputs] that shows a property of [props]
    under its UI name. *)
Definition shows_property (props : list UsdPropertyUiEntry)
    (entry : CustomLayoutProperty) : Prop :=
  group entry = "Inputs"
  ∧ ∃ prop display,
      prop ∈ props
      ∧ property_name entry = Some (prop_name prop)
      ∧ ui_name prop = inr display
      ∧ display_name entry = Some display.

End WarpKernel.

(** ** The readings of the specification compared with the code *)

(** The bipolynomial edge rule in the words of the specification: the
    1-based position along the slot, counted from the element-local first
    vertex of the slot, is mirrored when that vertex differs from the
    canonical first vertex of the edge. *)
Definition edge_node_as_specified (ORDER : Z) (geo_arg : Quadmesh2D.t)
    (topo_arg : Quadmesh2DTopologyArg.t) (element_index slot position : Z) : option Z :=
  side_index ← arr2_get (Quadmesh2DTopologyArg.quad_edge_indices topo_arg) element_index slot;
  local_vs ← arr2_get (Quadmesh2D.quad_vertex_indices geo_arg) element_index slot;
  edge ← arr_get (Quadmesh2DTopologyArg.edge_vertex_indices topo_arg) side_index;
  let mirrored_position :=
    if decide (local_vs ≠ v2_0 edge) then ORDER - position else position in
  Some (Quadmesh2DTopologyArg.vertex_count topo_arg
        + (ORDER - 1) * side_index + (mirrored_position - 1)).

(** The serendipity edge rule in the words of the specification: the
    slot is chosen by axis and offset, the index is mirrored when the
    offset indicates the far side, that is when it is not zero, and once
    more when the element-local first vertex of the slot differs from the
    canonical first vertex of the edge. *)
Definition side_start_and_index_as_specified (ORDER : Z) (node_type : node_type)
    (side_offset index_in_side : Z) : Z * Z :=
  let side_start :=
    if decide (node_type = EDGE_X) then (if decide (side_offset = 0) then 0 else 2)
    else (if decide (side_offset = 0) then 3 else 1) in
  (side_start,
   if decide (side_offset ≠ 0) then ORDER - 2 - index_in_side else index_in_side).

Definition serendipity_edge_node_as_specified (ORDER : Z) (cell_arg : Quadmesh2D.t)
    (topo_arg : Quadmesh2DTopologyArg.t) (element_index : Z)
    (node_type : node_type) (side_offset index_in_side : Z) : option Z :=
  let '(side_start, index_in_side) :=
    side_start_and_index_as_specified ORDER node_type side_offset index_in_side in
  side_index ← arr2_get (Quadmesh2DTopologyArg.quad_edge_indices topo_arg) element_index side_start;
  local_vs ← arr2_get (Quadmesh2D.quad_vertex_indices cell_arg) element_index side_start;
  edge ← arr_get (Quadmesh2DTopologyArg.edge_vertex_indices topo_arg) side_index;
  let index_in_side :=
    if decide (local_vs ≠ v2_0 edge) then ORDER - 2 - index_in_side else index_in_side in
  Some (Quadmesh2DTopologyArg.vertex_count topo_arg + (ORDER - 1) * side_index + index_in_side).

(** ** Vocabulary of the statements *)

(** The vertex pair [(k, k + 1)] of the quad is the pair of the edge, in
    either orientation. *)
Definition slot_matches (edge_vtx : vec2i) (quad_vtx : vec4i) (k : Z) : Prop :=
  ∃ a b, vec4_get quad_vtx k = Some a ∧ vec4_get quad_vtx (k + 1) = Some b
         ∧ ((v2_0 edge_vtx = a ∧ v2_1 edge_vtx = b) ∨ (v2_1 edge_vtx = a ∧ v2_0 edge_vtx = b)).

(** [k] is the smallest slot among 0, 1, 2 that matches, or 3 when none
    of them does. *)
Definition first_matching_slot (edge_vtx : vec2i) (quad_vtx : vec4i) (k : Z) : Prop :=
  0 ≤ k ≤ 3
  ∧ (k < 3 → slot_matches edge_vtx quad_vtx k)
  ∧ (∀ k', 0 ≤ k' < k → ¬ slot_matches edge_vtx quad_vtx k').

(** Every array cell that an evaluation of [element_node_index] on the
    element may read exists. *)
Definition element_readable (geo_arg : Quadmesh2D.t)
    (topo_arg : Quadmesh2DTopologyArg.t) (element_index : Z) : bool :=
  match arr_get (Quadmesh2D.quad_vertex_indices geo_arg) element_index,
        arr_get (Quadmesh2DTopologyArg.quad_edge_indices topo_arg) element_index with
  | Some _, Some row =>
      forallb (λ e, bool_decide
                 (is_Some (arr_get (Quadmesh2DTopologyArg.edge_vertex_indices topo_arg) e)))
              (vec4_elements row)
  | _, _ => false
  end.

(** ** A sample mesh and a sample classifier *)

(** Two quads side by side, sharing edge 1:
<<
      3 --- 4 --- 5
      |  0  |  1  |
      0 --- 1 --- 2
>>
*)
Definition strip_mesh : Quadmesh2D.t :=
  {| Quadmesh2D.vertex_count := 6;
     Quadmesh2D.quad_vertex_indices := [Vec4i 0 1 4 3; Vec4i 1 2 5 4];
     Quadmesh2D.edge_vertex_indices :=
       [Vec2i 0 1; Vec2i 1 4; Vec2i 3 4; Vec2i 0 3; Vec2i 1 2; Vec2i 2 5; Vec2i 5 4];
     Quadmesh2D.edge_quad_indices :=
       [Vec2i 0 0; Vec2i 0 1; Vec2i 0 0; Vec2i 0 0; Vec2i 1 1; Vec2i 1 1; Vec2i 1 1] |}.

(** The table the builder computes for [strip_mesh]. *)
Definition strip_table : list vec4i := [Vec4i 0 1 2 3; Vec4i 4 5 6 1].

(** The strip with a seventh vertex that no quad uses. *)
Definition strip_mesh_spare_vertex : Quadmesh2D.t :=
  {| Quadmesh2D.vertex_count := 7;
     Quadmesh2D.quad_vertex_indices := Quadmesh2D.quad_vertex_indices strip_mesh;
     Quadmesh2D.edge_vertex_indices := Quadmesh2D.edge_vertex_indices strip_mesh;
     Quadmesh2D.edge_quad_indices := Quadmesh2D.edge_quad_indices strip_mesh |}.

(** A classifier of the serendipity nodes of an element: nodes 0 to 3
    are the vertices; from node 4 on, edge nodes alternate between the
    two axes, and their type index alternates between the near and the
    far side. *)
Definition sample_node_type_and_type_index (node_index_in_elt : Z) : node_type * Z :=
  if decide (node_index_in_elt < 4) then (VERTEX, node_index_in_elt)
  else
    let type_index := (node_index_in_elt - 4) `div` 2 in
    let side := node_index_in_elt - 4 - 2 * type_index in
    (if decide (side = 0) then EDGE_X else EDGE_Y, type_index).

Definition sample_side_offset_and_index (type_index : Z) : Z * Z :=
  let index_in_side := type_index `div` 2 in
  let side_offset := type_index - 2 * index_in_side in
  (side_offset, index_in_side).

(** * Properties *)

(** ** Arrays *)

Lemma arr_get_Some {A : Type} (a : list A) (i : Z) (x : A) :
  arr_get a i = Some x ↔ 0 ≤ i ∧ a !! Z.to_nat i = Some x.
Proof.
  unfold arr_get. case_decide; split; intros H'; try tauto; try done.
Qed.

Lemma arr_get_lt {A : Type} (a : list A) (i : Z) (x : A) :
  arr_get a i = Some x → 0 ≤ i < Z.of_nat (length a).
Proof.
  intros [? H']%arr_get_Some. apply lookup_lt_Some in H'. lia.
Qed.

Lemma arr_get_is_Some {A : Type} (a : list A) (i : Z) :
  0 ≤ i < Z.of_nat (length a) → is_Some (arr_get a i).
Proof.
  intros ?. unfold arr_get. rewrite decide_True by lia.
  apply lookup_lt_is_Some. lia.
Qed.

Lemma vec4_get_Some (v : vec4i) (k x : Z) :
  vec4_get v k = Some x → 0 ≤ k ≤ 3.
Proof. unfold vec4_get. repeat case_decide; intros; simplify_eq; lia. Qed.

Lemma vec4_get_is_Some (v : vec4i) (k : Z) :
  0 ≤ k ≤ 3 → is_Some (vec4_get v k).
Proof.
  intros ?. assert (k = 0 ∨ k = 1 ∨ k = 2 ∨ k = 3) as Hk by lia.
  destruct Hk as [-> | [-> | [-> | ->]]]; by eexists.
Qed.

Lemma vec4_get_elements (v : vec4i) (k x : Z) :
  vec4_get v k = Some x → x ∈ vec4_elements v.
Proof.
  unfold vec4_get, vec4_elements. repeat case_decide; intros; simplify_eq; set_solver.
Qed.

Lemma vec4_get_set (v v' : vec4i) (k x k' : Z) :
  vec4_set v k x = Some v' →
  vec4_get v' k' = if decide (k' = k) then Some x else vec4_get v k'.
Proof.
  unfold vec4_set, vec4_get.
  repeat case_decide; intros; simplify_eq; simpl; try done; lia.
Qed.

Lemma vec4_set_is_Some (v : vec4i) (k x : Z) :
  0 ≤ k ≤ 3 → is_Some (vec4_set v k x).
Proof.
  intros ?. assert (k = 0 ∨ k = 1 ∨ k = 2 ∨ k = 3) as Hk by lia.
  destruct Hk as [-> | [-> | [-> | ->]]]; by eexists.
Qed.

Lemma arr2_set_length (a a' : list vec4i) (i k x : Z) :
  arr2_set a i k x = Some a' → length a' = length a.
Proof.
  unfold arr2_set. intros H'.
  destruct (arr_get a i) as [row|]; simplify_eq/=.
  destruct (vec4_set row k x) as [row'|]; simplify_eq/=.
  by rewrite length_insert.
Qed.

Lemma arr_get_insert {A : Type} (a : list A) (i j : Z) (x : A) :
  0 ≤ i < Z.of_nat (length a) →
  arr_get (<[Z.to_nat i := x]> a) j = if decide (j = i) then Some x else arr_get a j.
Proof.
  intros ?. unfold arr_get. case_decide as Hj.
  - destruct (decide (j = i)) as [->|Hne].
    + rewrite list_lookup_insert_eq; [done | lia].
    + rewrite list_lookup_insert_ne; [done | lia].
  - rewrite decide_False by lia. done.
Qed.

Lemma arr2_get_set (a a' : list vec4i) (i k x i' k' : Z) :
  arr2_set a i k x = Some a' →
  arr2_get a' i' k' = if decide (i' = i ∧ k' = k) then Some x else arr2_get a i' k'.
Proof.
  unfold arr2_set, arr2_get. intros H'.
  destruct (arr_get a i) as [row|] eqn:Hrow; simplify_eq/=.
  destruct (vec4_set row k x) as [row'|] eqn:Hset; simplify_eq/=.
  rewrite arr_get_insert by (by eapply arr_get_lt).
  destruct (decide (i' = i)) as [->|Hne]; simpl.
  - rewrite (vec4_get_set _ _ _ _ _ Hset), Hrow. simpl.
    destruct (decide (k' = k)); [rewrite decide_True | rewrite decide_False]; tauto.
  - rewrite decide_False by tauto. done.
Qed.

Lemma arr2_set_is_Some (a : list vec4i) (i k x : Z) :
  is_Some (arr_get a i) → 0 ≤ k ≤ 3 → is_Some (arr2_set a i k x).
Proof.
  intros [row Hrow] Hk. unfold arr2_set. rewrite Hrow. simpl.
  destruct (vec4_set_is_Some row k x Hk) as [row' ->]. by eexists.
Qed.

(** ** Node counts *)

(** C3.  For a mesh with V vertices, E edges and C quads and any order
    P >= 1, the bipolynomial node count is V + E (P - 1) + C (P - 1)^2
    and the serendipity node count is V + E (P - 1); with V = 6, E = 7,
    C = 2 and P = 2 the bipolynomial count is 15. *)
Theorem node_count_formulas (mesh : Quadmesh2D.t) (P : Z) :
  1 ≤ P →
  let V := Quadmesh2D.vertex_count mesh in
  let E := Quadmesh2D.side_count mesh in
  let C := Quadmesh2D.cell_count mesh in
  Quadmesh2DBipolynomialSpaceTopology.node_count mesh P
    = V + E * (P - 1) + C * (P - 1) ^ 2
  ∧ Quadmesh2DSerendipitySpaceTopology.node_count mesh P = V + E * (P - 1)
  ∧ (V = 6 → E = 7 → C = 2 → P = 2 →
     Quadmesh2DBipolynomialSpaceTopology.node_count mesh P = 15).
Proof.
  intros HP V E C.
  unfold Quadmesh2DBipolynomialSpaceTopology.node_count,
    Quadmesh2DSerendipitySpaceTopology.node_count.
  fold V E C. rewrite Z.max_r by lia.
  split; [done|]. split; [lia|].
  intros -> -> -> ->. reflexivity.
Qed.

Lemma node_count_formulas_witness :
  1 ≤ 2
  ∧ Quadmesh2DBipolynomialSpaceTopology.node_count strip_mesh 2 = 15
  ∧ Quadmesh2DSerendipitySpaceTopology.node_count strip_mesh 2 = 13.
Proof.
  assert (1 ≤ 2) as H12 by lia.
  split; [exact H12|].
  destruct (node_count_formulas strip_mesh 2 H12) as (_ & Hs & Hb).
  split; [by apply Hb | exact Hs].
Defined.

(** ** The bipolynomial classifier *)

Lemma element_readable_spec (geo_arg : Quadmesh2D.t)
    (topo_arg : Quadmesh2DTopologyArg.t) (element_index : Z) :
  element_readable geo_arg topo_arg element_index = true →
  ∃ quad row,
    arr_get (Quadmesh2D.quad_vertex_indices geo_arg) element_index = Some quad
    ∧ arr_get (Quadmesh2DTopologyArg.quad_edge_indices topo_arg) element_index = Some row
    ∧ ∀ k e, vec4_get row k = Some e →
        is_Some (arr_get (Quadmesh2DTopologyArg.edge_vertex_indices topo_arg) e).
Proof.
  unfold element_readable. intros H.
  destruct (arr_get (Quadmesh2D.quad_vertex_indices geo_arg) element_index)
    as [quad|]; [|done].
  destruct (arr_get (Quadmesh2DTopologyArg.quad_edge_indices topo_arg) element_index)
    as [row|]; [|done].
  exists quad, row. split; [done|]. split; [done|].
  intros k e Hk. apply vec4_get_elements in Hk.
  rewrite forallb_forall in H. apply list_elem_of_In, H in Hk.
  by apply bool_decide_eq_true in Hk.
Qed.

Lemma readable_vertex (geo_arg : Quadmesh2D.t)
    (topo_arg : Quadmesh2DTopologyArg.t) (element_index k : Z) :
  element_readable geo_arg topo_arg element_index = true → 0 ≤ k ≤ 3 →
  is_Some (arr2_get (Quadmesh2D.quad_vertex_indices geo_arg) element_index k).
Proof.
  intros (quad & row & Hq & _ & _)%element_readable_spec Hk.
  unfold arr2_get. rewrite Hq. simpl. by apply vec4_get_is_Some.
Qed.

Lemma readable_edge_node (ORDER : Z) (geo_arg : Quadmesh2D.t)
    (topo_arg : Quadmesh2DTopologyArg.t) (element_index k arg1 arg2 : Z) :
  element_readable geo_arg topo_arg element_index = true → 0 ≤ k ≤ 3 →
  is_Some (Quadmesh2DBipolynomialSpaceTopology.edge_node
             ORDER geo_arg topo_arg element_index k arg1 arg2).
Proof.
  intros Hr Hk.
  destruct (readable_vertex _ _ _ _ Hr Hk) as [local_vs Hl].
  destruct (element_readable_spec _ _ _ Hr) as (quad & row & Hq & Hrow & Hev).
  destruct (vec4_get_is_Some row k Hk) as [side_index Hs].
  destruct (Hev _ _ Hs) as [edge He].
  assert (arr2_get (Quadmesh2DTopologyArg.quad_edge_indices topo_arg)
            element_index k = Some side_index) as Hqe.
  { unfold arr2_get. by rewrite Hrow. }
  unfold Quadmesh2DBipolynomialSpaceTopology.edge_node.
  rewrite Hqe. simpl. rewrite Hl. simpl. rewrite He. simpl. by eexists.
Qed.

Lemma bipolynomial_coords_range (ORDER n : Z) :
  0 ≤ ORDER → 0 ≤ n < (ORDER + 1) ^ 2 →
  0 ≤ n `div` (ORDER + 1) ≤ ORDER
  ∧ 0 ≤ n `mod` (ORDER + 1) ≤ ORDER
  ∧ n - (ORDER + 1) * (n `div` (ORDER + 1)) = n `mod` (ORDER + 1).
Proof.
  intros HO Hn.
  pose proof (Z.div_mod n (ORDER + 1) ltac:(lia)) as Hdm.
  pose proof (Z.mod_pos_bound n (ORDER + 1) ltac:(lia)) as Hm.
  assert (0 ≤ n `div` (ORDER + 1)) by (apply Z.div_pos; lia).
  assert (n `div` (ORDER + 1) < ORDER + 1).
  { apply Z.div_lt_upper_bound; [lia|]. nia. }
  lia.
Qed.

(** C10.  For every order >= 1 and every local node index in
    [0, (ORDER + 1)^2) of a readable element, the bipolynomial
    [element_node_index] reaches a [return] statement; the interior
    return is the one reached exactly when both grid coordinates lie
    strictly between 0 and ORDER; for ORDER = 1 every node returns
    through a vertex lookup. *)
Theorem bipolynomial_classifier_total (ORDER : Z) (geo_arg : Quadmesh2D.t)
    (topo_arg : Quadmesh2DTopologyArg.t) (element_index node_index_in_elt : Z) :
  1 ≤ ORDER →
  0 ≤ node_index_in_elt < (ORDER + 1) ^ 2 →
  element_readable geo_arg topo_arg element_index = true →
  let node_i := node_index_in_elt `div` (ORDER + 1) in
  let node_j := node_index_in_elt - (ORDER + 1) * node_i in
  ∃ site index,
    Quadmesh2DBipolynomialSpaceTopology.element_node_index_at
      ORDER geo_arg topo_arg element_index node_index_in_elt = Some (site, index)
    ∧ (site = ReturnInterior ↔ 0 < node_i < ORDER ∧ 0 < node_j < ORDER)
    ∧ (ORDER = 1 → ∃ k, site = ReturnVertex k).
Proof.
  intros HO Hn Hr node_i node_j.
  destruct (bipolynomial_coords_range ORDER node_index_in_elt ltac:(lia) Hn)
    as (Hi & Hj & Hij).
  fold node_i in Hi, Hij. fold node_j in Hij. rewrite <- Hij in Hj.
  unfold Quadmesh2DBipolynomialSpaceTopology.element_node_index_at.
  fold node_i. fold node_j.
  repeat case_decide;
    try (match goal with
         | |- context [arr2_get ?a ?q ?k] =>
             destruct (readable_vertex geo_arg topo_arg q k Hr ltac:(lia)) as [v ->]
         end; simpl; eexists _, _; split; [reflexivity|];
         split; [split; [done | lia] | intros _; by eexists]);
    try (match goal with
         | |- context [Quadmesh2DBipolynomialSpaceTopology.edge_node ?o ?g ?t ?q ?k ?a ?b] =>
             destruct (readable_edge_node o g t q k a b Hr ltac:(lia)) as [v ->]
         end; simpl; eexists _, _; split; [reflexivity|];
         split; [split; [done | lia] | intros ->; lia]).
  eexists _, _. split; [reflexivity|]. split; [split; [lia | done] | intros ->; lia].
Qed.

Lemma bipolynomial_classifier_total_witness :
  ∃ site index,
    Quadmesh2DBipolynomialSpaceTopology.element_node_index_at
      2 strip_mesh (topo_arg_of strip_mesh strip_table) 0 4 = Some (site, index)
    ∧ (site = ReturnInterior ↔ 0 < 4 `div` (2 + 1) < 2 ∧ 0 < 4 - (2 + 1) * (4 `div` (2 + 1)) < 2)
    ∧ (2 = 1 → ∃ k, site = ReturnVertex k).
Proof.
  apply (bipolynomial_classifier_total 2 strip_mesh
           (topo_arg_of strip_mesh strip_table) 0 4); [lia | lia | reflexivity].
Defined.

(** ** Consistent meshes *)

Lemma forallb_seqZ (f : Z → bool) (m n : Z) :
  forallb f (seqZ m n) = true ↔ ∀ x, m ≤ x < m + n → f x = true.
Proof.
  rewrite forallb_forall. split.
  - intros H x Hx. apply H, list_elem_of_In, elem_of_seqZ. lia.
  - intros H x Hx%list_elem_of_In%elem_of_seqZ. apply H. lia.
Qed.

Lemma mesh_consistent_spec (mesh : Quadmesh2D.t) :
  mesh_consistent mesh = true →
  0 ≤ Quadmesh2D.vertex_count mesh
  ∧ length (Quadmesh2D.edge_quad_indices mesh)
    = length (Quadmesh2D.edge_vertex_indices mesh)
  ∧ (∀ q quad, arr_get (Quadmesh2D.quad_vertex_indices mesh) q = Some quad →
       quad_ok mesh quad = true)
  ∧ (∀ e, 0 ≤ e < Quadmesh2D.side_count mesh → edge_ok mesh e = true)
  ∧ (∀ q k, 0 ≤ q < Quadmesh2D.cell_count mesh → 0 ≤ k ≤ 3 →
       side_ok mesh q k = true).
Proof.
  unfold mesh_consistent. rewrite !andb_true_iff, !bool_decide_eq_true.
  intros ((((HV & Hlen) & Hq) & He) & Hs).
  split; [done|]. split; [done|]. split; [|split].
  - intros q quad [_ Hquad]%arr_get_Some.
    rewrite forallb_forall in Hq. apply Hq, list_elem_of_In.
    eapply list_elem_of_lookup_2, Hquad.
  - intros e Hrange. rewrite forallb_seqZ in He. apply He. lia.
  - intros q k Hqr Hk. rewrite forallb_seqZ in Hs.
    specialize (Hs q ltac:(lia)). rewrite forallb_seqZ in Hs. apply Hs. lia.
Qed.

Lemma quad_ok_spec (mesh : Quadmesh2D.t) (quad : vec4i) :
  quad_ok mesh quad = true →
  (∀ k v, vec4_get quad k = Some v → 0 ≤ v < Quadmesh2D.vertex_count mesh)
  ∧ NoDup (vec4_elements quad).
Proof.
  unfold quad_ok. rewrite andb_true_iff, bool_decide_eq_true.
  intros [Hr Hnd]. split; [|done].
  intros k v Hv%vec4_get_elements.
  rewrite forallb_forall in Hr. apply list_elem_of_In, Hr in Hv.
  by apply bool_decide_eq_true in Hv.
Qed.

Lemma consistent_vertex (mesh : Quadmesh2D.t) (q k : Z) :
  mesh_consistent mesh = true →
  0 ≤ q < Quadmesh2D.cell_count mesh → 0 ≤ k ≤ 3 →
  ∃ v, arr2_get (Quadmesh2D.quad_vertex_indices mesh) q k = Some v
       ∧ 0 ≤ v < Quadmesh2D.vertex_count mesh.
Proof.
  intros (_ & _ & Hq & _)%mesh_consistent_spec Hr Hk.
  destruct (arr_get_is_Some (Quadmesh2D.quad_vertex_indices mesh) q Hr) as [quad Hquad].
  destruct (vec4_get_is_Some quad k Hk) as [v Hv].
  exists v. unfold arr2_get. rewrite Hquad. simpl. split; [done|].
  destruct (quad_ok_spec mesh quad (Hq _ _ Hquad)) as [Hrange _]. eauto.
Qed.

(** ** Geometry of the reference element *)

Lemma locate_unfold (ORDER i j : Z) :
  1 ≤ ORDER →
  locate ORDER i j =
    if decide (0 ≤ i ≤ ORDER ∧ 0 ≤ j ≤ ORDER) then
      Some (if decide (i = 0) then
              if decide (j = 0) then AtCorner 0
              else if decide (j = ORDER) then AtCorner 3
              else OnSide 3 (ORDER - j)
            else if decide (i = ORDER) then
              if decide (j = 0) then AtCorner 1
              else if decide (j = ORDER) then AtCorner 2
              else OnSide 1 j
            else if decide (j = 0) then OnSide 0 i
            else if decide (j = ORDER) then OnSide 2 (ORDER - i)
            else Inside i j)
    else None.
Proof.
  intros HO. unfold locate.
  destruct (decide (0 ≤ i ≤ ORDER ∧ 0 ≤ j ≤ ORDER)) as [Hr|]; [|done].
  change (seqZ 0 4) with [0; 1; 2; 3]. cbn [list_find]. unfold corner_point.
  repeat (case_decide; simplify_eq/=; try lia; try done).
Qed.

(** A point that [locate] puts on a side is the grid point that many
    steps away from the first vertex of the side, and lies strictly
    between its two ends. *)
Lemma locate_OnSide (ORDER i j k pos : Z) :
  1 ≤ ORDER →
  locate ORDER i j = Some (OnSide k pos) →
  0 ≤ k ≤ 3 ∧ 1 ≤ pos ≤ ORDER - 1 ∧ side_point ORDER k pos = (i, j).
Proof.
  intros HO. rewrite locate_unfold by done.
  assert (ORDER `div` ORDER = 1) as H1 by (apply Z.div_same; lia).
  assert ((- ORDER) `div` ORDER = -1) as H2.
  { replace (- ORDER) with (-1 * ORDER) by lia. apply Z.div_mul. lia. }
  assert (0 `div` ORDER = 0) as H3 by (apply Z.div_0_l; lia).
  repeat case_decide; intros; simplify_eq; (split; [lia|]); (split; [lia|]);
    unfold side_point, corner_point; simpl;
    rewrite ?Z.sub_0_r, ?Z.sub_diag, ?Z.sub_0_l, ?H1, ?H2, ?H3; f_equal; lia.
Qed.

(** ** Edge nodes of the bipolynomial element *)

Section bipolynomial_edge.
Variables (ORDER : Z) (geo_arg : Quadmesh2D.t) (topo_arg : Quadmesh2DTopologyArg.t).
Variables (element_index : Z).

(** The value of one edge block, in terms of what it reads. *)
Lemma edge_node_value (k arg1 arg2 side_index local_vs : Z) (edge : vec2i) :
  arr2_get (Quadmesh2DTopologyArg.quad_edge_indices topo_arg) element_index k
    = Some side_index →
  arr2_get (Quadmesh2D.quad_vertex_indices geo_arg) element_index k = Some local_vs →
  arr_get (Quadmesh2DTopologyArg.edge_vertex_indices topo_arg) side_index = Some edge →
  Quadmesh2DBipolynomialSpaceTopology.edge_node
    ORDER geo_arg topo_arg element_index k arg1 arg2
  = Some (Quadmesh2DTopologyArg.vertex_count topo_arg + (ORDER - 1) * side_index
          + ((if decide (local_vs = v2_0 edge) then arg2 else arg1) - 1)).
Proof.
  intros Hs Hl He. unfold Quadmesh2DBipolynomialSpaceTopology.edge_node.
  rewrite Hs. simpl. rewrite Hl. simpl. rewrite He. simpl.
  unfold wp_select. by destruct (decide (local_vs = v2_0 edge));
    [rewrite bool_decide_eq_true_2 | rewrite bool_decide_eq_false_2].
Qed.

(** The result on a node that lies on slot [k], [pos] steps away from
    the element-local first vertex of the slot. *)
Lemma element_node_index_on_side (n k pos side_index local_vs : Z) (edge : vec2i) :
  1 ≤ ORDER →
  locate ORDER (n `div` (ORDER + 1)) (n - (ORDER + 1) * (n `div` (ORDER + 1)))
    = Some (OnSide k pos) →
  arr2_get (Quadmesh2DTopologyArg.quad_edge_indices topo_arg) element_index k
    = Some side_index →
  arr2_get (Quadmesh2D.quad_vertex_indices geo_arg) element_index k = Some local_vs →
  arr_get (Quadmesh2DTopologyArg.edge_vertex_indices topo_arg) side_index = Some edge →
  Quadmesh2DBipolynomialSpaceTopology.element_node_index_at
    ORDER geo_arg topo_arg element_index n
  = Some (ReturnEdge k,
          Quadmesh2DTopologyArg.vertex_count topo_arg + (ORDER - 1) * side_index
          + ((if decide (local_vs = v2_0 edge) then ORDER - pos else pos) - 1)).
Proof.
  intros HO Hloc Hs Hl He. rewrite locate_unfold in Hloc by done.
  unfold Quadmesh2DBipolynomialSpaceTopology.element_node_index_at.
  set (node_i := n `div` (ORDER + 1)) in *.
  set (node_j := n - (ORDER + 1) * node_i) in *.
  repeat case_decide; simplify_eq; try lia;
    rewrite (edge_node_value _ _ _ _ _ _ Hs Hl He); simpl;
    do 3 f_equal; case_decide; lia.
Qed.

End bipolynomial_edge.

(** C2, as the code has it.  A bipolynomial node with exactly one grid
    coordinate equal to 0 or ORDER lies on one slot, at a 1-based
    position in [1, ORDER - 1] counted from the element-local first
    vertex of the slot; the position is mirrored to ORDER - position
    exactly when that vertex equals the canonical first vertex of the
    edge, and the result is
    vertex_count + (ORDER - 1) * edge_id + (mirrored position - 1). *)
Theorem bipolynomial_edge_rule (ORDER : Z) (geo_arg : Quadmesh2D.t)
    (topo_arg : Quadmesh2DTopologyArg.t) (element_index n : Z) :
  1 ≤ ORDER →
  let node_i := n `div` (ORDER + 1) in
  let node_j := n - (ORDER + 1) * node_i in
  ((node_i = 0 ∨ node_i = ORDER) ∧ 0 < node_j < ORDER)
  ∨ ((node_j = 0 ∨ node_j = ORDER) ∧ 0 < node_i < ORDER) →
  ∃ k position,
    locate ORDER node_i node_j = Some (OnSide k position)
    ∧ 1 ≤ position ≤ ORDER - 1
    ∧ side_point ORDER k position = (node_i, node_j)
    ∧ ∀ side_index local_vs edge,
        arr2_get (Quadmesh2DTopologyArg.quad_edge_indices topo_arg) element_index k
          = Some side_index →
        arr2_get (Quadmesh2D.quad_vertex_indices geo_arg) element_index k
          = Some local_vs →
        arr_get (Quadmesh2DTopologyArg.edge_vertex_indices topo_arg) side_index
          = Some edge →
        let mirrored_position :=
          if decide (local_vs = v2_0 edge) then ORDER - position else position in
        Quadmesh2DBipolynomialSpaceTopology.element_node_index
          ORDER geo_arg topo_arg element_index n
        = Some (Quadmesh2DTopologyArg.vertex_count topo_arg
                + (ORDER - 1) * side_index + (mirrored_position - 1)).
Proof.
  intros HO node_i node_j Hedge.
  assert (∃ k position, locate ORDER node_i node_j = Some (OnSide k position))
    as (k & position & Hloc).
  { rewrite locate_unfold by done.
    repeat case_decide; try lia; by eexists _, _. }
  exists k, position. split; [done|].
  destruct (locate_OnSide _ _ _ _ _ HO Hloc) as (_ & Hpos & Hpt).
  split; [done|]. split; [done|].
  intros side_index local_vs edge Hs Hl He mirrored_position.
  unfold Quadmesh2DBipolynomialSpaceTopology.element_node_index.
  by rewrite (element_node_index_on_side ORDER geo_arg topo_arg element_index
                n k position side_index local_vs edge HO Hloc Hs Hl He).
Qed.

Lemma bipolynomial_edge_rule_witness :
  Quadmesh2DBipolynomialSpaceTopology.element_node_index
    3 strip_mesh (topo_arg_of strip_mesh strip_table) 0 4 = Some 7.
Proof.
  destruct (bipolynomial_edge_rule 3 strip_mesh (topo_arg_of strip_mesh strip_table) 0 4)
    as (k & position & Hloc & _ & _ & Hv); [lia | right; vm_compute; intuition congruence |].
  vm_compute in Hloc. injection Hloc as <- <-.
  exact (Hv 0 0 (Vec2i 0 1) eq_refl eq_refl eq_refl).
Defined.

(** C2, as stated, fails: on element 0 of the strip at order 3, node 4
    is one step away from local vertex 0 on slot 0, whose edge starts at
    that same vertex; the stated rule leaves the position unmirrored and
    gives 6, the code gives 7. *)
Lemma bipolynomial_edge_rule_counterexample :
  locate 3 (4 `div` (3 + 1)) (4 - (3 + 1) * (4 `div` (3 + 1))) = Some (OnSide 0 1)
  ∧ Quadmesh2DBipolynomialSpaceTopology.element_node_index
      3 strip_mesh (topo_arg_of strip_mesh strip_table) 0 4 = Some 7
  ∧ edge_node_as_specified 3 strip_mesh (topo_arg_of strip_mesh strip_table) 0 0 1
    = Some 6
  ∧ Quadmesh2DBipolynomialSpaceTopology.element_node_index
      3 strip_mesh (topo_arg_of strip_mesh strip_table) 0 4
    ≠ edge_node_as_specified 3 strip_mesh (topo_arg_of strip_mesh strip_table) 0 0 1.
Proof. vm_compute. repeat split; congruence. Qed.

(** ** Edge nodes of the serendipity element *)

(** The value of the serendipity index on an edge-type node, in terms
    of what it reads. *)
Lemma serendipity_edge_value
    (node_type_and_type_index : Z → node_type * Z)
    (side_offset_and_index : Z → Z * Z)
    (ORDER : Z) (cell_arg : Quadmesh2D.t) (topo_arg : Quadmesh2DTopologyArg.t)
    (element_index n : Z) (node_type : node_type)
    (type_index side_offset index_in_side : Z) :
  node_type_and_type_index n = (node_type, type_index) →
  node_type ≠ VERTEX →
  side_offset_and_index type_index = (side_offset, index_in_side) →
  let side_start :=
    if decide (node_type = EDGE_X) then (if decide (side_offset = 0) then 0 else 2)
    else (if decide (side_offset = 0) then 3 else 1) in
  let index_on_slot :=
    if decide (side_start = 2 ∨ side_start = 3) then ORDER - 2 - index_in_side
    else index_in_side in
  ∀ side_index local_vs edge,
    arr2_get (Quadmesh2DTopologyArg.quad_edge_indices topo_arg) element_index side_start
      = Some side_index →
    arr2_get (Quadmesh2D.quad_vertex_indices cell_arg) element_index side_start
      = Some local_vs →
    arr_get (Quadmesh2DTopologyArg.edge_vertex_indices topo_arg) side_index = Some edge →
    Quadmesh2DSerendipitySpaceTopology.element_node_index
      node_type_and_type_index side_offset_and_index
      ORDER cell_arg topo_arg element_index n
    = Some (Quadmesh2DTopologyArg.vertex_count topo_arg + (ORDER - 1) * side_index
            + (if decide (local_vs ≠ v2_0 edge) then ORDER - 2 - index_on_slot
               else index_on_slot)).
Proof.
  intros Hn Hty Hoff side_start index_on_slot side_index local_vs edge Hs Hl He.
  unfold Quadmesh2DSerendipitySpaceTopology.element_node_index.
  rewrite Hn. rewrite decide_False by done. rewrite Hoff.
  unfold Quadmesh2DSerendipitySpaceTopology.side_start_and_index.
  subst side_start index_on_slot.
  destruct (decide (node_type = EDGE_X)), (decide (side_offset = 0));
    rewrite Hs; simpl; rewrite Hl; simpl; rewrite He; simpl;
    repeat case_decide; try lia; try done.
Qed.

(** C8, as the code has it.  For an edge-type serendipity node, axis
    and offset select the slot (EDGE_X: slot 0 for offset zero, slot 2
    otherwise; the other axis: slot 3 for offset zero, slot 1
    otherwise); the index is mirrored to ORDER - 2 - index exactly when
    the selected slot is 2 or 3, that is on the far side for EDGE_X and
    on the near side for the other axis; it is mirrored once more exactly
    when the element-local first vertex of the slot differs from the
    canonical first vertex of the edge; the result is
    vertex_count + (ORDER - 1) * edge_id + index. *)
Theorem serendipity_edge_rule
    (node_type_and_type_index : Z → node_type * Z)
    (side_offset_and_index : Z → Z * Z)
    (ORDER : Z) (cell_arg : Quadmesh2D.t) (topo_arg : Quadmesh2DTopologyArg.t)
    (element_index n : Z) (node_type : node_type)
    (type_index side_offset index_in_side : Z) :
  node_type_and_type_index n = (node_type, type_index) →
  node_type ≠ VERTEX →
  side_offset_and_index type_index = (side_offset, index_in_side) →
  let side_start :=
    if decide (node_type = EDGE_X) then (if decide (side_offset = 0) then 0 else 2)
    else (if decide (side_offset = 0) then 3 else 1) in
  let index_on_slot :=
    if decide (side_start = 2 ∨ side_start = 3) then ORDER - 2 - index_in_side
    else index_in_side in
  ∀ side_index local_vs edge,
    arr2_get (Quadmesh2DTopologyArg.quad_edge_indices topo_arg) element_index side_start
      = Some side_index →
    arr2_get (Quadmesh2D.quad_vertex_indices cell_arg) element_index side_start
      = Some local_vs →
    arr_get (Quadmesh2DTopologyArg.edge_vertex_indices topo_arg) side_index = Some edge →
    Quadmesh2DSerendipitySpaceTopology.element_node_index
      node_type_and_type_index side_offset_and_index
      ORDER cell_arg topo_arg element_index n
    = Some (Quadmesh2DTopologyArg.vertex_count topo_arg + (ORDER - 1) * side_index
            + (if decide (local_vs ≠ v2_0 edge) then ORDER - 2 - index_on_slot
               else index_on_slot)).
Proof.
  apply serendipity_edge_value.
Qed.

Lemma serendipity_edge_rule_witness :
  Quadmesh2DSerendipitySpaceTopology.element_node_index
    sample_node_type_and_type_index sample_side_offset_and_index
    3 strip_mesh (topo_arg_of strip_mesh strip_table) 0 5 = Some 12.
Proof.
  exact (serendipity_edge_rule
           sample_node_type_and_type_index sample_side_offset_and_index
           3 strip_mesh (topo_arg_of strip_mesh strip_table) 0 5 EDGE_Y 0 0 0
           eq_refl ltac:(discriminate) eq_refl 3 3 (Vec2i 0 3) eq_refl eq_refl eq_refl).
Defined.

(** C8, as stated, fails: on element 0 of the strip at order 3, node 5
    is an edge node of the second axis with offset 0 and index 0.  The
    offset is that of the near side, yet the code mirrors the index
    before the orientation test; the stated rule does not, and gives 13
    where the code gives 12. *)
Lemma serendipity_edge_rule_counterexample :
  sample_node_type_and_type_index 5 = (EDGE_Y, 0)
  ∧ sample_side_offset_and_index 0 = (0, 0)
  ∧ Quadmesh2DSerendipitySpaceTopology.side_start_and_index 3 EDGE_Y 0 0 = (3, 1)
  ∧ side_start_and_index_as_specified 3 EDGE_Y 0 0 = (3, 0)
  ∧ Quadmesh2DSerendipitySpaceTopology.element_node_index
      sample_node_type_and_type_index sample_side_offset_and_index
      3 strip_mesh (topo_arg_of strip_mesh strip_table) 0 5 = Some 12
  ∧ serendipity_edge_node_as_specified
      3 strip_mesh (topo_arg_of strip_mesh strip_table) 0 EDGE_Y 0 0 = Some 13
  ∧ Quadmesh2DSerendipitySpaceTopology.element_node_index
      sample_node_type_and_type_index sample_side_offset_and_index
      3 strip_mesh (topo_arg_of strip_mesh strip_table) 0 5
    ≠ serendipity_edge_node_as_specified
        3 strip_mesh (topo_arg_of strip_mesh strip_table) 0 EDGE_Y 0 0.
Proof. vm_compute. repeat split; congruence. Qed.

(** ** The topology builder *)

Lemma edge_matches_spec (edge_vtx : vec2i) (a b : Z) :
  edge_matches edge_vtx a b = true
  ↔ (v2_0 edge_vtx = a ∧ v2_1 edge_vtx = b) ∨ (v2_1 edge_vtx = a ∧ v2_0 edge_vtx = b).
Proof.
  unfold edge_matches.
  rewrite orb_true_iff, !andb_true_iff, !bool_decide_eq_true. tauto.
Qed.

Lemma slot_matches_spec (edge_vtx : vec2i) (quad_vtx : vec4i) (k a b : Z) :
  vec4_get quad_vtx k = Some a → vec4_get quad_vtx (k + 1) = Some b →
  slot_matches edge_vtx quad_vtx k ↔ edge_matches edge_vtx a b = true.
Proof.
  intros Ha Hb. rewrite edge_matches_spec. unfold slot_matches. split.
  - intros (a' & b' & Ha' & Hb' & H). by simplify_eq.
  - intros H. by exists a, b.
Qed.

(** [_find_edge_index_in_quad] returns the first of the slots 0, 1, 2
    that matches, and 3 when none of them does. *)
Lemma find_edge_index_in_quad_spec (edge_vtx : vec2i) (quad_vtx : vec4i) :
  ∃ k, _find_edge_index_in_quad edge_vtx quad_vtx = Some k
       ∧ first_matching_slot edge_vtx quad_vtx k.
Proof.
  unfold _find_edge_index_in_quad, first_matching_slot.
  change (seqZ 0 3) with [0; 1; 2]. cbn [find_edge_loop].
  change (vec4_get quad_vtx 0) with (Some (v4_0 quad_vtx)).
  change (vec4_get quad_vtx (0 + 1)) with (Some (v4_1 quad_vtx)).
  change (vec4_get quad_vtx 1) with (Some (v4_1 quad_vtx)).
  change (vec4_get quad_vtx (1 + 1)) with (Some (v4_2 quad_vtx)).
  change (vec4_get quad_vtx 2) with (Some (v4_2 quad_vtx)).
  change (vec4_get quad_vtx (2 + 1)) with (Some (v4_3 quad_vtx)).
  cbn [mbind option_bind].
  pose proof (slot_matches_spec edge_vtx quad_vtx 0 _ _ eq_refl eq_refl) as H0.
  pose proof (slot_matches_spec edge_vtx quad_vtx 1 _ _ eq_refl eq_refl) as H1.
  pose proof (slot_matches_spec edge_vtx quad_vtx 2 _ _ eq_refl eq_refl) as H2.
  destruct (edge_matches edge_vtx (v4_0 quad_vtx) (v4_1 quad_vtx)) eqn:E0;
    [|destruct (edge_matches edge_vtx (v4_1 quad_vtx) (v4_2 quad_vtx)) eqn:E1;
      [|destruct (edge_matches edge_vtx (v4_2 quad_vtx) (v4_3 quad_vtx)) eqn:E2]];
    eexists; (split; [reflexivity|]); (split; [lia|]);
    (split; [try tauto; lia|]);
    intros k' Hk';
    assert (k' = 0 ∨ k' = 1 ∨ k' = 2) as [-> | [-> | ->]] by lia;
    try lia; rewrite ?H0, ?H1, ?H2; congruence.
Qed.

(** The effect of one thread on the table. *)
Lemma kernel_step (edge_quad_indices edge_vertex_indices : list vec2i)
    (quad_vertex_indices quad_edge_indices : list vec4i) (e : Z)
    (edge_vtx edge_quads : vec2i) (q0_vtx q1_vtx : vec4i) (k0 k1 : Z) :
  arr_get edge_vertex_indices e = Some edge_vtx →
  arr_get edge_quad_indices e = Some edge_quads →
  let q0 := v2_0 edge_quads in
  let q1 := v2_1 edge_quads in
  arr_get quad_vertex_indices q0 = Some q0_vtx →
  arr_get quad_vertex_indices q1 = Some q1_vtx →
  _find_edge_index_in_quad edge_vtx q0_vtx = Some k0 →
  _find_edge_index_in_quad edge_vtx q1_vtx = Some k1 →
  is_Some (arr_get quad_edge_indices q0) →
  is_Some (arr_get quad_edge_indices q1) →
  ∃ written,
    _compute_quad_edge_indices_kernel
      edge_quad_indices edge_vertex_indices quad_vertex_indices
      quad_edge_indices e = Some written
    ∧ length written = length quad_edge_indices
    ∧ ∀ q k,
        arr2_get written q k =
          if decide ((q = q0 ∧ k = k0) ∨ (q1 ≠ q0 ∧ q = q1 ∧ k = k1))
          then Some e
          else arr2_get quad_edge_indices q k.
Proof.
  intros Hev Heq q0 q1 Hq0 Hq1 Hf0 Hf1 Ht0 Ht1.
  assert (0 ≤ k0 ≤ 3) as Hk0.
  { destruct (find_edge_index_in_quad_spec edge_vtx q0_vtx) as (k & Hk & Hr & _).
    by simplify_eq. }
  assert (0 ≤ k1 ≤ 3) as Hk1.
  { destruct (find_edge_index_in_quad_spec edge_vtx q1_vtx) as (k & Hk & Hr & _).
    by simplify_eq. }
  destruct (arr2_set_is_Some quad_edge_indices q0 k0 e Ht0 Hk0) as [table0 Hset0].
  pose proof (arr2_set_length _ _ _ _ _ Hset0) as Hlen0.
  unfold _compute_quad_edge_indices_kernel.
  rewrite Hev, Heq. cbn [mbind option_bind]. fold q0 q1.
  rewrite Hq0. cbn [mbind option_bind]. rewrite Hf0. cbn [mbind option_bind].
  rewrite Hset0. cbn [mbind option_bind].
  destruct (decide (q1 ≠ q0)) as [Hne|Heq01].
  - assert (is_Some (arr_get table0 q1)) as Ht1'.
    { apply arr_get_is_Some. rewrite Hlen0.
      destruct Ht1 as [? Ht1]. by eapply arr_get_lt. }
    destruct (arr2_set_is_Some table0 q1 k1 e Ht1' Hk1) as [table1 Hset1].
    exists table1. rewrite Hq1. cbn [mbind option_bind].
    rewrite Hf1. cbn [mbind option_bind].
    split; [done|].
    split; [by rewrite (arr2_set_length _ _ _ _ _ Hset1)|].
    intros q k. rewrite (arr2_get_set _ _ _ _ _ q k Hset1).
    rewrite (arr2_get_set _ _ _ _ _ q k Hset0).
    repeat case_decide; try done; tauto.
  - exists table0. split; [done|]. split; [done|].
    intros q k. rewrite (arr2_get_set _ _ _ _ _ q k Hset0).
    repeat case_decide; try done; tauto.
Qed.

(** C4.  The thread of edge [e], with vertices (v0, v1) and incident
    quads (q0, q1), stores [e] in cell (q0, k0) of the table, where k0 is
    the first of the slots 0, 1, 2 of q0 whose vertex pair is {v0, v1},
    or 3 when none is; it stores [e] in cell (q1, k1), with k1 found the
    same way in q1, exactly when q1 differs from q0; every other cell of
    the table is left as it was. *)
Theorem kernel_writes (edge_quad_indices edge_vertex_indices : list vec2i)
    (quad_vertex_indices quad_edge_indices : list vec4i) (e : Z)
    (edge_vtx edge_quads : vec2i) (q0_vtx q1_vtx : vec4i) :
  arr_get edge_vertex_indices e = Some edge_vtx →
  arr_get edge_quad_indices e = Some edge_quads →
  let q0 := v2_0 edge_quads in
  let q1 := v2_1 edge_quads in
  arr_get quad_vertex_indices q0 = Some q0_vtx →
  arr_get quad_vertex_indices q1 = Some q1_vtx →
  is_Some (arr_get quad_edge_indices q0) →
  is_Some (arr_get quad_edge_indices q1) →
  ∃ k0 k1 written,
    first_matching_slot edge_vtx q0_vtx k0
    ∧ first_matching_slot edge_vtx q1_vtx k1
    ∧ _compute_quad_edge_indices_kernel
        edge_quad_indices edge_vertex_indices quad_vertex_indices
        quad_edge_indices e = Some written
    ∧ length written = length quad_edge_indices
    ∧ ∀ q k,
        arr2_get written q k =
          if decide ((q = q0 ∧ k = k0) ∨ (q1 ≠ q0 ∧ q = q1 ∧ k = k1))
          then Some e
          else arr2_get quad_edge_indices q k.
Proof.
  intros Hev Heq q0 q1 Hq0 Hq1 Ht0 Ht1.
  destruct (find_edge_index_in_quad_spec edge_vtx q0_vtx) as (k0 & Hf0 & Hk0).
  destruct (find_edge_index_in_quad_spec edge_vtx q1_vtx) as (k1 & Hf1 & Hk1).
  destruct (kernel_step edge_quad_indices edge_vertex_indices quad_vertex_indices
              quad_edge_indices e edge_vtx edge_quads q0_vtx q1_vtx k0 k1
              Hev Heq Hq0 Hq1 Hf0 Hf1 Ht0 Ht1) as (written & Hrun & Hlen & Hcells).
  by exists k0, k1, written.
Qed.

Lemma kernel_writes_witness :
  ∃ k0 k1 written,
    first_matching_slot (Vec2i 1 4) (Vec4i 0 1 4 3) k0
    ∧ first_matching_slot (Vec2i 1 4) (Vec4i 1 2 5 4) k1
    ∧ _compute_quad_edge_indices_kernel
        (Quadmesh2D.edge_quad_indices strip_mesh)
        (Quadmesh2D.edge_vertex_indices strip_mesh)
        (Quadmesh2D.quad_vertex_indices strip_mesh)
        [Vec4i 9 9 9 9; Vec4i 9 9 9 9] 1 = Some written
    ∧ length written = 2%nat
    ∧ ∀ q k,
        arr2_get written q k =
          if decide ((q = 0 ∧ k = k0) ∨ (1 ≠ 0 ∧ q = 1 ∧ k = k1))
          then Some 1
          else arr2_get [Vec4i 9 9 9 9; Vec4i 9 9 9 9] q k.
Proof.
  apply (kernel_writes
           (Quadmesh2D.edge_quad_indices strip_mesh)
           (Quadmesh2D.edge_vertex_indices strip_mesh)
           (Quadmesh2D.quad_vertex_indices strip_mesh)
           [Vec4i 9 9 9 9; Vec4i 9 9 9 9] 1
           (Vec2i 1 4) (Vec2i 0 1) (Vec4i 0 1 4 3) (Vec4i 1 2 5 4));
    try reflexivity; by eexists.
Defined.

(** ** Configuration errors *)

(** C6.  [Quadmesh2DSpaceTopology.__init__] raises exactly when the
    family of the shape is not closed, and
    [make_quadmesh_space_topology] raises for every shape that is
    neither a serendipity nor a bipolynomial one; in both cases no table
    has been allocated and no kernel launched when the error is raised,
    and no topology is returned. *)
Theorem configuration_errors {Polynomial : Type} (is_closed : Polynomial → bool)
    (mesh : Quadmesh2D.t) (shape : ShapeFunction.t Polynomial)
    (uninit : list vec4i) (schedule : list Z) :
  ((∃ exn, (Quadmesh2DSpaceTopology.__init__ is_closed mesh shape uninit schedule).2
           = Raised exn)
   ↔ is_closed (ShapeFunction.family shape) = false)
  ∧ (∀ exn, (Quadmesh2DSpaceTopology.__init__ is_closed mesh shape uninit schedule).2
            = Raised exn →
       (Quadmesh2DSpaceTopology.__init__ is_closed mesh shape uninit schedule).1 = [])
  ∧ (ShapeFunction.class shape ≠ SquareSerendipityShapeFunctions →
     ShapeFunction.class shape ≠ SquareBipolynomialShapeFunctions →
     Quadmesh2DSpaceTopology.make_quadmesh_space_topology
       is_closed mesh shape uninit schedule
     = ([], Raised (ValueError
                      ("Unsupported shape function " +:+ ShapeFunction.name shape))))
  ∧ (∀ exn, (Quadmesh2DSpaceTopology.make_quadmesh_space_topology
               is_closed mesh shape uninit schedule).2 = Raised exn →
       (Quadmesh2DSpaceTopology.make_quadmesh_space_topology
          is_closed mesh shape uninit schedule).1 = []).
Proof.
  assert (∀ exn, (Quadmesh2DSpaceTopology.__init__
                    is_closed mesh shape uninit schedule).2 = Raised exn →
            is_closed (ShapeFunction.family shape) = false
            ∧ (Quadmesh2DSpaceTopology.__init__
                 is_closed mesh shape uninit schedule).1 = []) as Hinit.
  { intros exn. unfold Quadmesh2DSpaceTopology.__init__.
    destruct (is_closed (ShapeFunction.family shape)); simpl; [|done].
    by destruct (_compute_quad_edge_indices mesh uninit schedule). }
  split; [split|split; [|split]].
  - intros [exn Hexn]. by apply Hinit in Hexn as [? _].
  - intros Hopen. unfold Quadmesh2DSpaceTopology.__init__. rewrite Hopen.
    simpl. by eexists.
  - intros exn Hexn. by apply Hinit in Hexn as [_ ?].
  - intros Hs Hb. unfold Quadmesh2DSpaceTopology.make_quadmesh_space_topology.
    by rewrite !decide_False.
  - intros exn. unfold Quadmesh2DSpaceTopology.make_quadmesh_space_topology,
      Quadmesh2DSpaceTopology.forward_base_topology.
    repeat case_decide; [| |done];
      destruct (Quadmesh2DSpaceTopology.__init__ is_closed mesh shape uninit schedule)
        as [work [exn'| |topo]]; simpl in *; intros Hexn; simplify_eq;
      by destruct (Hinit _ eq_refl).
Qed.

(** ** The per-device cache *)

(** The body of [topo_arg_value] reads the device only to place the
    arrays: the content of the struct is the same for every device. *)
Lemma topo_arg_value_body_device {Polynomial : Type}
    (self : Quadmesh2DSpaceTopology.t Polynomial) (device device' : string) :
  Quadmesh2DSpaceTopology.topo_arg_value_body self device
  = Quadmesh2DSpaceTopology.topo_arg_value_body self device'.
Proof. reflexivity. Qed.

(** The invariant of the cache attribute along a sequence of requests:
    the ordinals stored are those of the devices the body has run for,
    one run each, and what is stored for an ordinal is a struct with the
    content the body gives. *)
Lemma requests_spec {Polynomial : Type}
    (self : Quadmesh2DSpaceTopology.t Polynomial) (devices : list Device.t)
    (cache_attr : gmap Z (allocated Quadmesh2DTopologyArg.t))
    (heap built : list Device.t) :
  NoDup (Device.ordinal <$> built) →
  (∀ o, is_Some (cache_attr !! o) ↔ o ∈ Device.ordinal <$> built) →
  (∀ o a, cache_attr !! o = Some a →
     contents a = Quadmesh2DSpaceTopology.topo_arg_value_body self "") →
  ∃ args cache_attr' new,
    cache.requests topo_arg_value_run self devices cache_attr heap
    = (args, cache_attr', heap ++ new)
    ∧ NoDup (Device.ordinal <$> built ++ new)
    ∧ (∀ o, is_Some (cache_attr' !! o) ↔ o ∈ Device.ordinal <$> built ++ new)
    ∧ (∀ o a, cache_attr' !! o = Some a →
         contents a = Quadmesh2DSpaceTopology.topo_arg_value_body self "")
    ∧ (∀ o a, cache_attr !! o = Some a → cache_attr' !! o = Some a)
    ∧ (∀ device, device ∈ new → device ∈ devices)
    ∧ (∀ device, device ∈ devices → is_Some (cache_attr' !! Device.ordinal device))
    ∧ length args = length devices
    ∧ (∀ i device a, devices !! i = Some device → args !! i = Some a →
         cache_attr' !! Device.ordinal device = Some a).
Proof.
  revert cache_attr heap built.
  induction devices as [|device rest IH]; intros cache_attr heap built Hnd Hdom Hval.
  - exists [], cache_attr, []. simpl. rewrite !app_nil_r.
    split; [done|]. split; [done|]. split; [done|]. split; [done|].
    split; [done|]. split; [done|]. split; [by intros d ?%elem_of_nil|].
    split; [done|]. intros i d a. by rewrite lookup_nil.
  - simpl. unfold cache.cached_arg_value at 1.
    destruct (cache_attr !! Device.ordinal device) as [arg|] eqn:Hlook.
    + destruct (IH cache_attr heap built Hnd Hdom Hval)
        as (args & cache_attr' & new & -> & Hnd' & Hdom' & Hval' & Hmono & Hnew & Hall
            & Hlen & Hargs).
      exists (arg :: args), cache_attr', new.
      split; [done|]. split; [done|]. split; [done|]. split; [done|].
      split; [done|]. split; [by intros d Hd; right; auto|]. split; [|split].
      * intros d [-> | Hd]%elem_of_cons; [|by auto].
        exists arg. by apply Hmono.
      * simpl. by rewrite Hlen.
      * intros [|i] d a; simpl; [|by apply Hargs].
        intros; simplify_eq. by apply Hmono.
    + unfold topo_arg_value_run at 1.
      set (arg := Allocated (length heap)
                    (Quadmesh2DSpaceTopology.topo_arg_value_body self (Device.alias device))).
      destruct (IH (<[Device.ordinal device := arg]> cache_attr) (heap ++ [device])
                  (built ++ [device]))
        as (args & cache_attr' & new & Hrun & Hnd' & Hdom' & Hval' & Hmono & Hnew & Hall
            & Hlen & Hargs).
      * rewrite fmap_app. simpl. apply NoDup_app. split; [done|]. split.
        -- intros o Ho ->%list_elem_of_singleton.
           apply Hdom in Ho. rewrite Hlook in Ho. by destruct Ho.
        -- apply NoDup_singleton.
      * intros o. rewrite fmap_app. simpl. rewrite elem_of_app, list_elem_of_singleton.
        destruct (decide (o = Device.ordinal device)) as [->|Hne].
        -- rewrite lookup_insert_eq. split; [by right | by eexists].
        -- rewrite lookup_insert_ne by done. rewrite Hdom. split; [by left|].
           by intros [?|?].
      * intros o a. destruct (decide (o = Device.ordinal device)) as [->|Hne].
        -- rewrite lookup_insert_eq. intros; by simplify_eq.
        -- rewrite lookup_insert_ne by done. apply Hval.
      * exists (arg :: args), cache_attr', (device :: new).
        rewrite Hrun. rewrite <- !(assoc_L (++)) in *. simpl in *.
        split; [done|]. split; [done|]. split; [done|]. split; [done|].
        split; [|split; [|split; [|split]]].
        -- intros o a Ho. apply Hmono. rewrite lookup_insert_ne; [done|]. congruence.
        -- intros d [-> | Hd]%elem_of_cons; [by left | right; auto].
        -- intros d [-> | Hd]%elem_of_cons; [|by auto].
           exists arg. apply Hmono. by rewrite lookup_insert_eq.
        -- by rewrite Hlen.
        -- intros [|i] d a; simpl; [|by apply Hargs].
           intros; simplify_eq. apply Hmono. by rewrite lookup_insert_eq.
Qed.

(** C9.  On one topology object, starting before any request (no cache
    attribute yet) and with any allocation record: along any sequence
    of calls of [topo_arg_value] every call returns; the body of the
    method runs, and allocates a struct, at most once per device, for
    requested devices only and for each of them; two calls for the same
    device return the identical struct, the same allocation with the
    same content, which is the content the body gives; and a call that
    follows a call for the same device returns the struct of the first
    without running the body again. *)
Theorem topo_arg_value_cached {Polynomial : Type}
    (self : Quadmesh2DSpaceTopology.t Polynomial) (devices heap : list Device.t) :
  ∃ args cache_attr built,
    cache.requests topo_arg_value_run self devices ∅ heap
    = (args, cache_attr, heap ++ built)
    ∧ length args = length devices
    ∧ NoDup (Device.ordinal <$> built)
    ∧ (∀ device, device ∈ built → device ∈ devices)
    ∧ (∀ device, device ∈ devices →
         Device.ordinal device ∈ Device.ordinal <$> built)
    ∧ (∀ i j device device' a b,
         devices !! i = Some device → devices !! j = Some device' →
         Device.ordinal device = Device.ordinal device' →
         args !! i = Some a → args !! j = Some b →
         a = b
         ∧ contents a
           = Quadmesh2DSpaceTopology.topo_arg_value_body self (Device.alias device))
    ∧ (∀ device cache_attr0 heap0,
         let '(arg, cache_attr1, heap1) := topo_arg_value self device cache_attr0 heap0 in
         topo_arg_value self device cache_attr1 heap1 = (arg, cache_attr1, heap1)).
Proof.
  destruct (requests_spec self devices ∅ heap [])
    as (args & cache_attr & built & Hrun & Hnd & Hdom & Hval & _ & Hnew & Hall
        & Hlen & Hargs).
  { constructor. }
  { intros o. rewrite lookup_empty. split; [by intros [? ?] | by intros ?%elem_of_nil]. }
  { intros o a. by rewrite lookup_empty. }
  simpl in Hnd, Hdom.
  exists args, cache_attr, built.
  split; [done|]. split; [done|]. split; [done|]. split; [done|].
  split; [|split].
  - intros device Hd. apply Hdom. by apply Hall.
  - intros i j device device' a b Hi Hj Hord Ha Hb.
    pose proof (Hargs _ _ _ Hi Ha) as Ea. pose proof (Hargs _ _ _ Hj Hb) as Eb.
    rewrite Hord in Ea. split; [congruence|].
    rewrite (Hval _ _ Ea). apply topo_arg_value_body_device.
  - intros device cache_attr0 heap0. unfold topo_arg_value, cache.cached_arg_value.
    destruct (cache_attr0 !! Device.ordinal device) as [arg|] eqn:Hlook; simpl.
    + by rewrite Hlook.
    + by rewrite lookup_insert_eq.
Qed.

(** ** Correctness of the builder on a consistent mesh *)

Lemma quad_side_Some (quad : vec4i) (k a b : Z) :
  quad_side quad k = Some (a, b) →
  0 ≤ k ≤ 3 ∧ vec4_get quad k = Some a ∧ vec4_get quad ((k + 1) `mod` 4) = Some b.
Proof.
  unfold quad_side. intros H.
  destruct (vec4_get quad k) as [a'|] eqn:Ha; simplify_eq/=.
  destruct (vec4_get quad ((k + 1) `mod` 4)) as [b'|] eqn:Hb; simplify_eq/=.
  split; [by eapply vec4_get_Some|done].
Qed.

Lemma edge_on_side_spec (mesh : Quadmesh2D.t) (q k e : Z) :
  edge_on_side mesh q k e = true ↔
  ∃ edge_vtx edge_quads quad a b,
    arr_get (Quadmesh2D.edge_vertex_indices mesh) e = Some edge_vtx
    ∧ arr_get (Quadmesh2D.edge_quad_indices mesh) e = Some edge_quads
    ∧ arr_get (Quadmesh2D.quad_vertex_indices mesh) q = Some quad
    ∧ quad_side quad k = Some (a, b)
    ∧ (v2_0 edge_quads = q ∨ v2_1 edge_quads = q)
    ∧ edge_matches edge_vtx a b = true.
Proof.
  unfold edge_on_side. split.
  - destruct (arr_get (Quadmesh2D.edge_vertex_indices mesh) e) as [edge_vtx|]; [|done].
    destruct (arr_get (Quadmesh2D.edge_quad_indices mesh) e) as [edge_quads|]; [|done].
    destruct (arr_get (Quadmesh2D.quad_vertex_indices mesh) q) as [quad|]; simpl; [|done].
    destruct (quad_side quad k) as [[a b]|] eqn:Hs; [|done].
    rewrite andb_true_iff, orb_true_iff, !bool_decide_eq_true.
    intros [Hq Hm]. exists edge_vtx, edge_quads, quad, a, b. repeat split; done.
  - intros (edge_vtx & edge_quads & quad & a & b & -> & -> & -> & Hs & Hq & Hm).
    simpl. rewrite Hs.
    rewrite andb_true_iff, orb_true_iff, !bool_decide_eq_true. done.
Qed.

Lemma NoDup_4 (x0 x1 x2 x3 : Z) :
  NoDup [x0; x1; x2; x3] →
  x0 ≠ x1 ∧ x0 ≠ x2 ∧ x0 ≠ x3 ∧ x1 ≠ x2 ∧ x1 ≠ x3 ∧ x2 ≠ x3.
Proof.
  intros H. repeat (apply NoDup_cons in H as [? H]). set_solver.
Qed.

(** The four sides of a quad with distinct vertices are distinct pairs. *)
Lemma quad_side_unique (edge_vtx : vec2i) (quad : vec4i) (k k' a b a' b' : Z) :
  NoDup (vec4_elements quad) →
  quad_side quad k = Some (a, b) → quad_side quad k' = Some (a', b') →
  edge_matches edge_vtx a b = true → edge_matches edge_vtx a' b' = true →
  k = k'.
Proof.
  intros Hnd Hs Hs' Hm Hm'.
  apply edge_matches_spec in Hm. apply edge_matches_spec in Hm'.
  destruct (quad_side_Some _ _ _ _ Hs) as (Hk & _ & _).
  destruct (quad_side_Some _ _ _ _ Hs') as (Hk' & _ & _).
  destruct quad as [x0 x1 x2 x3]. unfold vec4_elements in Hnd. simpl in Hnd.
  apply NoDup_4 in Hnd.
  assert (k = 0 ∨ k = 1 ∨ k = 2 ∨ k = 3) as [-> | [-> | [-> | ->]]] by lia;
    assert (k' = 0 ∨ k' = 1 ∨ k' = 2 ∨ k' = 3) as [-> | [-> | [-> | ->]]] by lia;
    try done; exfalso;
    vm_compute in Hs; vm_compute in Hs'; simplify_eq;
    intuition congruence.
Qed.

(** On a quad with distinct vertices, [_find_edge_index_in_quad] finds
    the slot of the side that the edge lies on. *)
Lemma find_edge_index_on_side (edge_vtx : vec2i) (quad : vec4i) (k a b : Z) :
  NoDup (vec4_elements quad) →
  quad_side quad k = Some (a, b) → edge_matches edge_vtx a b = true →
  _find_edge_index_in_quad edge_vtx quad = Some k.
Proof.
  intros Hnd Hs Hm.
  destruct (find_edge_index_in_quad_spec edge_vtx quad) as (k0 & -> & Hr & Hlt & Hmin).
  f_equal.
  destruct (quad_side_Some _ _ _ _ Hs) as (Hk & Ha & Hb).
  destruct (decide (k0 < 3)) as [Hk0|Hk0].
  - destruct (Hlt Hk0) as (a0 & b0 & Ha0 & Hb0 & Hm0).
    apply edge_matches_spec in Hm0.
    eapply (quad_side_unique edge_vtx quad k0 k a0 b0 a b); try done.
    unfold quad_side. rewrite Ha0. simpl.
    replace ((k0 + 1) `mod` 4) with (k0 + 1) by (rewrite Z.mod_small; lia).
    by rewrite Hb0.
  - assert (k0 = 3) as -> by lia.
    destruct (decide (k = 3)) as [->|Hne]; [done|].
    exfalso. apply (Hmin k ltac:(lia)).
    exists a, b. split; [done|]. split; [|by apply edge_matches_spec].
    rewrite <- Hb. f_equal. rewrite Z.mod_small; lia.
Qed.

Section consistent_mesh.
Variable mesh : Quadmesh2D.t.
Hypothesis Hmesh : mesh_consistent mesh = true.

Lemma consistent_quad_NoDup (q : Z) (quad : vec4i) :
  arr_get (Quadmesh2D.quad_vertex_indices mesh) q = Some quad →
  NoDup (vec4_elements quad).
Proof.
  intros Hq. destruct (mesh_consistent_spec mesh Hmesh) as (_ & _ & Hok & _).
  by destruct (quad_ok_spec mesh quad (Hok _ _ Hq)).
Qed.

Lemma edge_on_side_range (q k e : Z) :
  edge_on_side mesh q k e = true →
  0 ≤ q < Quadmesh2D.cell_count mesh ∧ 0 ≤ k ≤ 3
  ∧ 0 ≤ e < Quadmesh2D.side_count mesh.
Proof.
  intros (edge_vtx & edge_quads & quad & a & b & He & _ & Hq & Hs & _)%edge_on_side_spec.
  apply arr_get_lt in He. apply arr_get_lt in Hq.
  apply quad_side_Some in Hs as (Hk & _). done.
Qed.

(** An edge lies on at most one slot of a quad. *)
Lemma edge_on_side_slot_unique (q k k' e : Z) :
  edge_on_side mesh q k e = true → edge_on_side mesh q k' e = true → k = k'.
Proof.
  intros (edge_vtx & edge_quads & quad & a & b & He & _ & Hq & Hs & _ & Hm)%edge_on_side_spec.
  intros (edge_vtx' & edge_quads' & quad' & a' & b' & He' & _ & Hq' & Hs' & _ & Hm')%edge_on_side_spec.
  simplify_eq.
  eapply (quad_side_unique edge_vtx quad); try done.
  by eapply consistent_quad_NoDup.
Qed.

(** Exactly one edge lies on each slot of each quad. *)
Lemma side_edge_spec (q k : Z) :
  0 ≤ q < Quadmesh2D.cell_count mesh → 0 ≤ k ≤ 3 →
  ∃ e, side_edge mesh q k = Some e
       ∧ edge_on_side mesh q k e = true
       ∧ ∀ e', edge_on_side mesh q k e' = true → e' = e.
Proof.
  intros Hq Hk.
  destruct (mesh_consistent_spec mesh Hmesh) as (_ & _ & _ & _ & Hside).
  specialize (Hside q k Hq Hk). unfold side_ok in Hside.
  apply bool_decide_eq_true in Hside.
  unfold side_edge.
  destruct (side_edges mesh q k) as [|e [|? ?]] eqn:Hl; simplify_eq/=.
  exists e. split; [done|].
  assert (∀ e', e' ∈ side_edges mesh q k ↔ edge_on_side mesh q k e' = true) as Hin.
  { intros e'. unfold side_edges. rewrite list_elem_of_filter, elem_of_seqZ.
    rewrite Is_true_true. split; [tauto|].
    intros He'. split; [done|]. apply edge_on_side_range in He'. lia. }
  split.
  - apply Hin. rewrite Hl. by left.
  - intros e' He'%Hin. rewrite Hl in He'. by apply list_elem_of_singleton in He'.
Qed.

(** On a consistent mesh, the thread of edge [e] stores [e] in exactly
    the cells of the slots that [e] lies on. *)
Lemma kernel_step_consistent (table : list vec4i) (e : Z) :
  length table = length (Quadmesh2D.quad_vertex_indices mesh) →
  0 ≤ e < Quadmesh2D.side_count mesh →
  ∃ table',
    _compute_quad_edge_indices_kernel
      (Quadmesh2D.edge_quad_indices mesh) (Quadmesh2D.edge_vertex_indices mesh)
      (Quadmesh2D.quad_vertex_indices mesh) table e = Some table'
    ∧ length table' = length table
    ∧ ∀ q k, arr2_get table' q k =
               if edge_on_side mesh q k e then Some e else arr2_get table q k.
Proof.
  intros Hlen He.
  destruct (mesh_consistent_spec mesh Hmesh) as (_ & Hlen' & _ & Hedge & _).
  specialize (Hedge e He). unfold edge_ok in Hedge.
  destruct (arr_get (Quadmesh2D.edge_quad_indices mesh) e)
    as [edge_quads|] eqn:Heq; [|done].
  cbn [forallb] in Hedge. rewrite !andb_true_iff in Hedge.
  destruct Hedge as (H0 & H1 & _).
  apply existsb_exists in H0 as (k0 & _ & H0).
  apply existsb_exists in H1 as (k1 & _ & H1).
  pose proof H0 as (edge_vtx & edge_quads0 & q0_vtx & a0 & b0 & Hev & Heq0
                    & Hq0 & Hs0 & _ & Hm0)%edge_on_side_spec.
  pose proof H1 as (edge_vtx1 & edge_quads1 & q1_vtx & a1 & b1 & Hev1 & Heq1
                    & Hq1 & Hs1 & _ & Hm1)%edge_on_side_spec.
  simplify_eq.
  assert (∀ q, is_Some (arr_get (Quadmesh2D.quad_vertex_indices mesh) q) →
               is_Some (arr_get table q)) as Hrow.
  { intros q [? Hq%arr_get_lt]. apply arr_get_is_Some. lia. }
  pose proof (find_edge_index_on_side _ _ _ _ _
                (consistent_quad_NoDup _ _ Hq0) Hs0 Hm0) as Hf0.
  pose proof (find_edge_index_on_side _ _ _ _ _
                (consistent_quad_NoDup _ _ Hq1) Hs1 Hm1) as Hf1.
  destruct (kernel_step _ _ _ table e _ _ _ _ _ _ Hev Heq Hq0 Hq1 Hf0 Hf1
              (Hrow _ (mk_is_Some _ _ Hq0)) (Hrow _ (mk_is_Some _ _ Hq1)))
    as (table' & Hrun & Hlen'' & Hcells).
  exists table'. split; [done|]. split; [done|].
  intros q k. rewrite Hcells.
  destruct (edge_on_side mesh q k e) eqn:Hon.
  - apply decide_True.
    pose proof Hon as (? & ? & ? & ? & ? & ? & ? & ? & ? & [Hq|Hq] & ?)%edge_on_side_spec;
      simplify_eq.
    + left. split; [done|]. by eapply edge_on_side_slot_unique.
    + destruct (decide (v2_1 edge_quads = v2_0 edge_quads)) as [Hsame|Hne].
      * left. split; [done|]. rewrite Hsame in Hon.
        by eapply edge_on_side_slot_unique.
      * right. split; [done|]. split; [done|]. by eapply edge_on_side_slot_unique.
  - apply decide_False. intros [[-> ->]|(_ & -> & ->)]; congruence.
Qed.

(** A launch along any list of edges stores in each cell an edge of the
    list that lies on the slot of the cell, and leaves the cells of the
    other slots as they were. *)
Lemma launch_consistent (schedule : list Z) (table : list vec4i) :
  length table = length (Quadmesh2D.quad_vertex_indices mesh) →
  (∀ e, e ∈ schedule → 0 ≤ e < Quadmesh2D.side_count mesh) →
  ∃ table',
    _compute_quad_edge_indices mesh table schedule = Some table'
    ∧ length table' = length table
    ∧ ∀ q k,
        (∃ e, e ∈ schedule ∧ edge_on_side mesh q k e = true
              ∧ arr2_get table' q k = Some e)
        ∨ ((∀ e, e ∈ schedule → edge_on_side mesh q k e = false)
           ∧ arr2_get table' q k = arr2_get table q k).
Proof.
  unfold _compute_quad_edge_indices.
  revert table. induction schedule as [|e rest IH]; intros table Hlen Hrange.
  - exists table. split; [done|]. split; [done|].
    intros q k. right. split; [|done]. by intros e ?%elem_of_nil.
  - destruct (kernel_step_consistent table e Hlen) as (table1 & Hrun & Hlen1 & Hcells).
    { apply Hrange. by left. }
    destruct (IH table1) as (table' & Hrest & Hlen2 & Hcells').
    { congruence. }
    { intros e' He'. apply Hrange. by right. }
    exists table'. cbn [launch]. rewrite Hrun. cbn [mbind option_bind].
    split; [done|]. split; [congruence|].
    intros q k. destruct (Hcells' q k) as [(e' & He' & Hon & Hget)|[Hnone Hget]].
    + left. exists e'. split; [by right|done].
    + rewrite Hcells in Hget. destruct (edge_on_side mesh q k e) eqn:Hon.
      * left. exists e. split; [by left|done].
      * right. split; [|done].
        intros e' [->|He']%elem_of_cons; [done|by apply Hnone].
Qed.

(** The builder succeeds on a consistent mesh, whatever the content of
    the fresh table and the order of the threads, and computes the table
    of the edges lying on the slots. *)
Lemma builder_correct (uninit : list vec4i) (schedule : list Z) :
  length uninit = length (Quadmesh2D.quad_vertex_indices mesh) →
  is_schedule mesh schedule →
  ∃ table,
    _compute_quad_edge_indices mesh uninit schedule = Some table
    ∧ table_correct mesh table.
Proof.
  intros Hlen Hsched. unfold is_schedule in Hsched.
  destruct (mesh_consistent_spec mesh Hmesh) as (_ & Hlen' & _).
  assert (∀ e, e ∈ schedule ↔ 0 ≤ e < Quadmesh2D.side_count mesh) as Hin.
  { intros e. rewrite Hsched, elem_of_seqZ, Hlen'.
    unfold Quadmesh2D.side_count. lia. }
  destruct (launch_consistent schedule uninit Hlen) as (table & Hrun & Hlen'' & Hcells).
  { intros e. apply Hin. }
  exists table. split; [done|]. split; [congruence|].
  intros q k Hq Hk.
  destruct (side_edge_spec q k Hq Hk) as (e & -> & Hon & Huniq).
  destruct (Hcells q k) as [(e' & _ & Hon' & ->)|[Hnone _]].
  - f_equal. by apply Huniq.
  - rewrite Hnone in Hon; [done|]. apply Hin.
    by destruct (edge_on_side_range _ _ _ Hon) as (_ & _ & ?).
Qed.

End consistent_mesh.

(** ** The index of a local node is the number of its physical node *)

Section numbering.
Variable mesh : Quadmesh2D.t.
Hypothesis Hmesh : mesh_consistent mesh = true.
Variable table : list vec4i.
Hypothesis Htable : table_correct mesh table.
Variable ORDER : Z.
Hypothesis HORDER : 1 ≤ ORDER.

(** What the code and the geometry read on slot [k] of quad [q]. *)
Lemma side_data (q k : Z) :
  0 ≤ q < Quadmesh2D.cell_count mesh → 0 ≤ k ≤ 3 →
  ∃ e local_vs edge,
    side_edge mesh q k = Some e
    ∧ arr2_get table q k = Some e
    ∧ arr2_get (Quadmesh2D.quad_vertex_indices mesh) q k = Some local_vs
    ∧ arr_get (Quadmesh2D.edge_vertex_indices mesh) e = Some edge
    ∧ 0 ≤ e < Quadmesh2D.side_count mesh.
Proof.
  intros Hq Hk.
  destruct (side_edge_spec mesh Hmesh q k Hq Hk) as (e & Hside & Hon & _).
  pose proof Hon as (edge & ? & quad & a & b & He & _ & Hquad & Hs & _)%edge_on_side_spec.
  apply quad_side_Some in Hs as (_ & Ha & _).
  exists e, a, edge. split; [done|].
  split; [by rewrite (proj2 Htable q k Hq Hk)|].
  split; [unfold arr2_get; by rewrite Hquad|]. split; [done|].
  by destruct (edge_on_side_range mesh _ _ _ Hon) as (_ & _ & ?).
Qed.

Lemma physical_node_on_side (q k pos i j : Z) :
  0 ≤ q < Quadmesh2D.cell_count mesh →
  locate ORDER i j = Some (OnSide k pos) →
  ∃ e local_vs edge,
    arr2_get table q k = Some e
    ∧ arr2_get (Quadmesh2D.quad_vertex_indices mesh) q k = Some local_vs
    ∧ arr_get (Quadmesh2D.edge_vertex_indices mesh) e = Some edge
    ∧ 0 ≤ e < Quadmesh2D.side_count mesh
    ∧ 1 ≤ pos ≤ ORDER - 1
    ∧ physical_node_at mesh ORDER q (i, j)
      = Some (EdgeNode e (if decide (local_vs = v2_0 edge) then pos else ORDER - pos)).
Proof.
  intros Hq Hloc.
  destruct (locate_OnSide _ _ _ _ _ HORDER Hloc) as (Hk & Hpos & _).
  destruct (side_data q k Hq Hk) as (e & local_vs & edge & Hside & Ht & Hl & He & Hr).
  exists e, local_vs, edge. repeat (split; [done|]).
  unfold physical_node_at. simpl. rewrite Hloc. simpl.
  rewrite Hside. simpl. rewrite Hl. simpl. by rewrite He.
Qed.

(** The bipolynomial index of a local node is the number of the
    physical node at its grid point. *)
Lemma bipolynomial_index_physical (q n : Z) :
  0 ≤ q < Quadmesh2D.cell_count mesh →
  0 ≤ n < (ORDER + 1) ^ 2 →
  ∃ node,
    physical_node_at mesh ORDER q (bipolynomial_node_coords ORDER n) = Some node
    ∧ physical_node_valid mesh ORDER node
    ∧ Quadmesh2DBipolynomialSpaceTopology.element_node_index
        ORDER mesh (topo_arg_of mesh table) q n
      = Some (bipolynomial_index_of mesh ORDER node).
Proof.
  intros Hq Hn.
  destruct (bipolynomial_coords_range ORDER n ltac:(lia) Hn) as (Hi & Hj & Hij).
  unfold bipolynomial_node_coords.
  set (i := n `div` (ORDER + 1)) in *. set (j := n `mod` (ORDER + 1)) in *.
  destruct (locate ORDER i j) as [[k|k pos|i' j']|] eqn:Hloc.
  - (* a corner *)
    assert (0 ≤ k ≤ 3) as Hk.
    { rewrite locate_unfold in Hloc by done.
      revert Hloc. repeat case_decide; intros; simplify_eq; lia. }
    destruct (consistent_vertex mesh q k Hmesh Hq Hk) as (v & Hv & Hr).
    exists (VertexNode v). unfold physical_node_at. simpl. rewrite Hloc. simpl.
    rewrite Hv. simpl. split; [done|]. split; [done|].
    unfold Quadmesh2DBipolynomialSpaceTopology.element_node_index,
      Quadmesh2DBipolynomialSpaceTopology.element_node_index_at.
    fold i. rewrite Hij. rewrite locate_unfold in Hloc by done.
    revert Hloc. repeat case_decide; intros; simplify_eq; try lia;
      by rewrite Hv.
  - (* on a side *)
    destruct (physical_node_on_side q k pos i j Hq Hloc)
      as (e & local_vs & edge & Ht & Hl & He & Hr & Hpos & Hphys).
    eexists. split; [exact Hphys|]. split.
    { simpl. split; [done|]. case_decide; lia. }
    unfold Quadmesh2DBipolynomialSpaceTopology.element_node_index.
    rewrite (element_node_index_on_side ORDER mesh (topo_arg_of mesh table) q n k pos
               e local_vs edge HORDER); try done.
    + simpl. do 2 f_equal. case_decide; lia.
    + fold i. by rewrite Hij.
  - (* inside *)
    rewrite locate_unfold in Hloc by done.
    assert (i' = i ∧ j' = j ∧ 0 < i < ORDER ∧ 0 < j < ORDER) as (-> & -> & Hi' & Hj').
    { revert Hloc. repeat case_decide; intros; simplify_eq; lia. }
    destruct (arr_get_is_Some (Quadmesh2D.quad_vertex_indices mesh) q Hq) as [quad Hquad].
    exists (CellNode q i j). unfold physical_node_at. simpl.
    rewrite locate_unfold by done. 
    repeat case_decide; try lia. simpl. rewrite Hquad. simpl.
    split; [done|]. split; [lia|].
    unfold Quadmesh2DBipolynomialSpaceTopology.element_node_index,
      Quadmesh2DBipolynomialSpaceTopology.element_node_index_at.
    fold i. rewrite Hij.
    repeat case_decide; try lia. simpl. rewrite Z.max_r by lia. f_equal. lia.
  - rewrite locate_unfold in Hloc by done.
    revert Hloc. repeat case_decide; intros; simplify_eq; lia.
Qed.

End numbering.

Section serendipity_numbering.
Variable mesh : Quadmesh2D.t.
Hypothesis Hmesh : mesh_consistent mesh = true.
Variable table : list vec4i.
Hypothesis Htable : table_correct mesh table.
Variable ORDER : Z.
Hypothesis HORDER : 1 ≤ ORDER.
Variable node_type_and_type_index : Z → node_type * Z.
Variable side_offset_and_index : Z → Z * Z.

(** The serendipity index of a local node is the number of the physical
    node at its grid point. *)
Lemma serendipity_index_physical (q n : Z) :
  0 ≤ q < Quadmesh2D.cell_count mesh →
  serendipity_node_ok node_type_and_type_index side_offset_and_index ORDER n →
  ∃ node index,
    physical_node_at mesh ORDER q
      (serendipity_node_coords node_type_and_type_index side_offset_and_index ORDER n)
    = Some node
    ∧ physical_node_valid mesh ORDER node
    ∧ serendipity_index_of mesh ORDER node = Some index
    ∧ Quadmesh2DSerendipitySpaceTopology.element_node_index
        node_type_and_type_index side_offset_and_index
        ORDER mesh (topo_arg_of mesh table) q n
      = Some index.
Proof.
  intros Hq Hok. unfold serendipity_node_ok in Hok.
  unfold serendipity_node_coords.
  destruct (node_type_and_type_index n) as [ty t] eqn:Hn.
  assert (ty = VERTEX ∨ ty ≠ VERTEX) as [->|Hty] by (destruct ty; auto).
  - (* a vertex node *)
    set (k := if decide (t = 0) then 0 else if decide (t = 1) then 3
              else if decide (t = 2) then 1 else 2).
    assert (0 ≤ k ≤ 3) as Hk by (unfold k; repeat case_decide; lia).
    assert (vec4_get Quadmesh2DSerendipitySpaceTopology.SHAPE_TO_QUAD_IDX t = Some k)
      as Hshape.
    { unfold k. assert (t = 0 ∨ t = 1 ∨ t = 2 ∨ t = 3) as [-> | [-> | [-> | ->]]] by lia;
        reflexivity. }
    assert (locate ORDER (t `div` 2 * ORDER) (t `mod` 2 * ORDER) = Some (AtCorner k))
      as Hloc.
    { rewrite locate_unfold by done. unfold k.
      assert (t = 0 ∨ t = 1 ∨ t = 2 ∨ t = 3) as [-> | [-> | [-> | ->]]] by lia;
        change (0 `div` 2) with 0; change (1 `div` 2) with 0;
        change (2 `div` 2) with 1; change (3 `div` 2) with 1;
        change (0 `mod` 2) with 0; change (1 `mod` 2) with 1;
        change (2 `mod` 2) with 0; change (3 `mod` 2) with 1;
        rewrite ?Z.mul_0_l, ?Z.mul_1_l;
        repeat case_decide; try lia; done. }
    destruct (consistent_vertex mesh q k Hmesh Hq Hk) as (v & Hv & Hr).
    exists (VertexNode v), v. unfold physical_node_at. simpl. rewrite Hloc. simpl.
    rewrite Hv. simpl. split; [done|]. split; [done|]. split; [done|].
    unfold Quadmesh2DSerendipitySpaceTopology.element_node_index.
    rewrite Hn. rewrite decide_True by done. rewrite Hshape. simpl. done.
  - (* an edge node *)
    destruct (side_offset_and_index t) as [off idx] eqn:Hoff.
    assert (0 ≤ idx ≤ ORDER - 2) as Hidx by (destruct ty; done).
    set (side_start :=
           if decide (ty = EDGE_X) then (if decide (off = 0) then 0 else 2)
           else (if decide (off = 0) then 3 else 1)).
    set (x := if decide (side_start = 2 ∨ side_start = 3) then ORDER - 2 - idx else idx).
    set (ij := match ty with
               | VERTEX => (t `div` 2 * ORDER, t `mod` 2 * ORDER)
               | EDGE_X => (1 + idx, if decide (off = 0) then 0 else ORDER)
               | EDGE_Y => (if decide (off = 0) then 0 else ORDER, 1 + idx)
               end).
    assert (locate ORDER ij.1 ij.2 = Some (OnSide side_start (x + 1))) as Hloc.
    { rewrite locate_unfold by done. unfold ij, x, side_start.
      destruct ty; [done| |]; simpl;
        repeat (case_decide; simplify_eq/=; try lia; try done);
        do 2 f_equal; lia. }
    destruct (physical_node_on_side mesh Hmesh table Htable ORDER HORDER
                q side_start (x + 1) ij.1 ij.2 Hq Hloc)
      as (e & local_vs & edge & Ht & Hl & He & Hr & Hpos & Hphys).
    rewrite <- surjective_pairing in Hphys.
    eexists _, _. split; [exact Hphys|]. split.
    { simpl. split; [done|]. case_decide; lia. }
    split; [reflexivity|].
    rewrite (serendipity_edge_value node_type_and_type_index side_offset_and_index
               ORDER mesh (topo_arg_of mesh table) q n ty t off idx Hn Hty Hoff
               e local_vs edge Ht Hl He).
    simpl. fold side_start. fold x. do 2 f_equal.
    repeat case_decide; try done; lia.
Qed.

End serendipity_numbering.

(** ** The numberings are bijections onto the index range *)

Section numbering_arithmetic.
Variable mesh : Quadmesh2D.t.
Variable ORDER : Z.
Hypothesis HV : 0 ≤ Quadmesh2D.vertex_count mesh.
Hypothesis HORDER : 1 ≤ ORDER.

Lemma side_count_nonneg : 0 ≤ Quadmesh2D.side_count mesh.
Proof. unfold Quadmesh2D.side_count. lia. Qed.

Lemma cell_count_nonneg : 0 ≤ Quadmesh2D.cell_count mesh.
Proof. unfold Quadmesh2D.cell_count. lia. Qed.

Lemma bipolynomial_node_count_eq :
  Quadmesh2DBipolynomialSpaceTopology.node_count mesh ORDER
  = Quadmesh2D.vertex_count mesh + Quadmesh2D.side_count mesh * (ORDER - 1)
    + Quadmesh2D.cell_count mesh * ((ORDER - 1) * (ORDER - 1)).
Proof.
  unfold Quadmesh2DBipolynomialSpaceTopology.node_count.
  rewrite Z.max_r by lia. rewrite Z.pow_2_r. done.
Qed.

(** Digits: a number below [m * n] written as [m * e + x]. *)
Lemma digits_inj (m e x e' x' : Z) :
  0 ≤ x < m → 0 ≤ x' < m → m * e + x = m * e' + x' → e = e' ∧ x = x'.
Proof. intros Hx Hx' Heq. assert (e = e') by nia. subst. lia. Qed.

Lemma digits_lt (m n e x : Z) :
  0 ≤ x < m → 0 ≤ e < n → 0 ≤ m * e + x < m * n.
Proof. intros Hx He. nia. Qed.

Lemma digits_onto (m n r : Z) :
  0 ≤ r < m * n → 0 ≤ n →
  ∃ e x, 0 ≤ e < n ∧ 0 ≤ x < m ∧ r = m * e + x.
Proof.
  intros Hr Hn. assert (0 < m) as Hm by nia.
  exists (r `div` m), (r `mod` m).
  pose proof (Z.div_mod r m ltac:(lia)) as Hdm.
  pose proof (Z.mod_pos_bound r m Hm) as Hmod.
  split; [|split; [done|lia]].
  split; [apply Z.div_pos; lia|].
  apply Z.div_lt_upper_bound; lia.
Qed.

Lemma bipolynomial_index_range (node : physical_node) :
  physical_node_valid mesh ORDER node →
  0 ≤ bipolynomial_index_of mesh ORDER node
    < Quadmesh2DBipolynomialSpaceTopology.node_count mesh ORDER.
Proof.
  rewrite bipolynomial_node_count_eq.
  pose proof side_count_nonneg as HE. pose proof cell_count_nonneg as HC.
  set (m := ORDER - 1). assert (0 ≤ m) as Hm by lia.
  destruct node as [v|e pos|q i j]; simpl; fold m.
  - intros Hv. nia.
  - intros [He Hpos].
    pose proof (digits_lt m (Quadmesh2D.side_count mesh) e (ORDER - pos - 1)
                  ltac:(lia) He).
    nia.
  - intros (Hq & Hi & Hj).
    pose proof (digits_lt m m (i - 1) (j - 1) ltac:(lia) ltac:(lia)) as H1.
    pose proof (digits_lt (m * m) (Quadmesh2D.cell_count mesh) q
                  (m * (i - 1) + (j - 1)) H1 Hq) as H2.
    rewrite Z.pow_2_r. nia.
Qed.

Lemma bipolynomial_index_inj (a b : physical_node) :
  physical_node_valid mesh ORDER a → physical_node_valid mesh ORDER b →
  bipolynomial_index_of mesh ORDER a = bipolynomial_index_of mesh ORDER b →
  a = b.
Proof.
  pose proof side_count_nonneg as HE. pose proof cell_count_nonneg as HC.
  intros Ha Hb Heq.
  pose proof (bipolynomial_index_range a Ha) as Hra.
  pose proof (bipolynomial_index_range b Hb) as Hrb.
  rewrite bipolynomial_node_count_eq in Hra, Hrb.
  set (m := ORDER - 1) in *. assert (0 ≤ m) as Hm by lia.
  assert (∀ e pos, 0 ≤ e < Quadmesh2D.side_count mesh → 1 ≤ pos ≤ ORDER - 1 →
            Quadmesh2D.vertex_count mesh
            ≤ Quadmesh2D.vertex_count mesh + m * e + (ORDER - pos - 1)
            < Quadmesh2D.vertex_count mesh + Quadmesh2D.side_count mesh * m) as Hedge.
  { intros e pos He Hpos.
    pose proof (digits_lt m (Quadmesh2D.side_count mesh) e (ORDER - pos - 1)
                  ltac:(lia) He). lia. }
  assert (∀ q i j, 0 ≤ q → 1 ≤ i ≤ ORDER - 1 → 1 ≤ j ≤ ORDER - 1 →
            0 ≤ q * m ^ 2 + (i - 1) * m + (j - 1)) as Hcell.
  { intros q i j Hq Hi Hj. rewrite Z.pow_2_r. nia. }
  destruct a as [v|e pos|q i j], b as [v'|e' pos'|q' i' j'];
    simpl in *; fold m in Heq, Hra, Hrb.
  - by subst.
  - destruct Hb as [He Hpos]. specialize (Hedge e' pos' He Hpos). lia.
  - destruct Hb as (Hq & Hi & Hj). specialize (Hcell q' i' j' (proj1 Hq) Hi Hj). lia.
  - destruct Ha as [He Hpos]. specialize (Hedge e pos He Hpos). lia.
  - destruct Ha as [He Hpos], Hb as [He' Hpos'].
    destruct (digits_inj m e (ORDER - pos - 1) e' (ORDER - pos' - 1))
      as [-> ?]; [lia | lia | lia |].
    f_equal. lia.
  - destruct Ha as [He Hpos], Hb as (Hq & Hi & Hj).
    specialize (Hedge e pos He Hpos). specialize (Hcell q' i' j' (proj1 Hq) Hi Hj). lia.
  - destruct Ha as (Hq & Hi & Hj). specialize (Hcell q i j (proj1 Hq) Hi Hj). lia.
  - destruct Hb as [He Hpos], Ha as (Hq & Hi & Hj).
    specialize (Hedge e' pos' He Hpos). specialize (Hcell q i j (proj1 Hq) Hi Hj). lia.
  - destruct Ha as (Hq & Hi & Hj), Hb as (Hq' & Hi' & Hj').
    pose proof (digits_lt m m (i - 1) (j - 1) ltac:(lia) ltac:(lia)) as H1.
    pose proof (digits_lt m m (i' - 1) (j' - 1) ltac:(lia) ltac:(lia)) as H1'.
    destruct (digits_inj (m * m) q (m * (i - 1) + (j - 1)) q' (m * (i' - 1) + (j' - 1)))
      as [-> Hrest]; [done | done | rewrite Z.pow_2_r in Heq; lia |].
    destruct (digits_inj m (i - 1) (j - 1) (i' - 1) (j' - 1))
      as [? ?]; [lia | lia | done |].
    f_equal; lia.
Qed.

Lemma bipolynomial_index_onto (index : Z) :
  0 ≤ index < Quadmesh2DBipolynomialSpaceTopology.node_count mesh ORDER →
  ∃ node, physical_node_valid mesh ORDER node
          ∧ bipolynomial_index_of mesh ORDER node = index.
Proof.
  rewrite bipolynomial_node_count_eq.
  pose proof side_count_nonneg as HE. pose proof cell_count_nonneg as HC.
  set (m := ORDER - 1). assert (0 ≤ m) as Hm by lia.
  intros Hr.
  destruct (decide (index < Quadmesh2D.vertex_count mesh)) as [Hv|Hv].
  { exists (VertexNode index). simpl. split; [lia|done]. }
  destruct (decide (index < Quadmesh2D.vertex_count mesh
                            + Quadmesh2D.side_count mesh * m)) as [He|He].
  { destruct (digits_onto m (Quadmesh2D.side_count mesh)
                (index - Quadmesh2D.vertex_count mesh) ltac:(lia) HE)
      as (e & x & He' & Hx & Heq).
    exists (EdgeNode e (ORDER - 1 - x)). simpl. fold m. split; [lia|lia]. }
  destruct (digits_onto (m * m) (Quadmesh2D.cell_count mesh)
              (index - Quadmesh2D.vertex_count mesh - Quadmesh2D.side_count mesh * m)
              ltac:(lia) HC) as (q & s & Hq & Hs & Heq).
  destruct (digits_onto m m s ltac:(lia) Hm) as (i & j & Hi & Hj & Heq').
  exists (CellNode q (i + 1) (j + 1)). simpl. fold m. split; [lia|].
  rewrite Z.pow_2_r. lia.
Qed.

Lemma serendipity_index_range (node : physical_node) (index : Z) :
  physical_node_valid mesh ORDER node →
  serendipity_index_of mesh ORDER node = Some index →
  0 ≤ index < Quadmesh2DSerendipitySpaceTopology.node_count mesh ORDER.
Proof.
  unfold Quadmesh2DSerendipitySpaceTopology.node_count.
  pose proof side_count_nonneg as HE.
  destruct node as [v|e pos|q i j]; simpl; intros Hvalid ?; simplify_eq.
  - nia.
  - destruct Hvalid as [He Hpos].
    pose proof (digits_lt (ORDER - 1) (Quadmesh2D.side_count mesh) e (pos - 1)
                  ltac:(lia) He). lia.
Qed.

Lemma serendipity_index_inj (a b : physical_node) (index : Z) :
  physical_node_valid mesh ORDER a → physical_node_valid mesh ORDER b →
  serendipity_index_of mesh ORDER a = Some index →
  serendipity_index_of mesh ORDER b = Some index →
  a = b.
Proof.
  destruct a as [v|e pos|q i j], b as [v'|e' pos'|q' i' j'];
    simpl; intros Ha Hb ? ?; simplify_eq; try done.
  - destruct Hb as [He Hpos].
    pose proof (digits_lt (ORDER - 1) (Quadmesh2D.side_count mesh) e' (pos' - 1)
                  ltac:(lia) He). lia.
  - destruct Ha as [He Hpos].
    pose proof (digits_lt (ORDER - 1) (Quadmesh2D.side_count mesh) e (pos - 1)
                  ltac:(lia) He). lia.
  - destruct Ha as [He Hpos], Hb as [He' Hpos'].
    destruct (digits_inj (ORDER - 1) e (pos - 1) e' (pos' - 1))
      as [-> ?]; [lia | lia | lia |].
    f_equal. lia.
Qed.

Lemma serendipity_index_onto (index : Z) :
  0 ≤ index < Quadmesh2DSerendipitySpaceTopology.node_count mesh ORDER →
  ∃ node, physical_node_valid mesh ORDER node
          ∧ serendipity_index_of mesh ORDER node = Some index.
Proof.
  unfold Quadmesh2DSerendipitySpaceTopology.node_count.
  pose proof side_count_nonneg as HE.
  intros Hr.
  destruct (decide (index < Quadmesh2D.vertex_count mesh)) as [Hv|Hv].
  { exists (VertexNode index). simpl. split; [lia|done]. }
  destruct (digits_onto (ORDER - 1) (Quadmesh2D.side_count mesh)
              (index - Quadmesh2D.vertex_count mesh) ltac:(lia) HE)
    as (e & x & He' & Hx & Heq).
  exists (EdgeNode e (x + 1)). simpl. split; [lia|]. f_equal. lia.
Qed.

End numbering_arithmetic.

(** ** Every physical node is a local node of some element *)

Lemma locate_grid (ORDER i j : Z) (loc : location) :
  locate ORDER i j = Some loc → 0 ≤ i ≤ ORDER ∧ 0 ≤ j ≤ ORDER.
Proof. unfold locate. by case_decide. Qed.

Lemma locate_AtCorner (ORDER i j k : Z) :
  1 ≤ ORDER → locate ORDER i j = Some (AtCorner k) →
  0 ≤ k ≤ 3 ∧ corner_point ORDER k = (i, j).
Proof.
  intros HO. rewrite locate_unfold by done. unfold corner_point.
  repeat case_decide; intros; simplify_eq; (split; [lia|]); f_equal; lia.
Qed.

Lemma locate_corner_point (ORDER k : Z) :
  1 ≤ ORDER → 0 ≤ k ≤ 3 →
  locate ORDER (corner_point ORDER k).1 (corner_point ORDER k).2 = Some (AtCorner k).
Proof.
  intros HO Hk. rewrite locate_unfold by done. unfold corner_point.
  assert (k = 0 ∨ k = 1 ∨ k = 2 ∨ k = 3) as [-> | [-> | [-> | ->]]] by lia;
    simpl; repeat case_decide; try lia; done.
Qed.

Lemma locate_side_point (ORDER k pos : Z) :
  1 ≤ ORDER → 0 ≤ k ≤ 3 → 1 ≤ pos ≤ ORDER - 1 →
  locate ORDER (side_point ORDER k pos).1 (side_point ORDER k pos).2
  = Some (OnSide k pos).
Proof.
  intros HO Hk Hpos. rewrite locate_unfold by done.
  assert (ORDER `div` ORDER = 1) as H1 by (apply Z.div_same; lia).
  assert ((- ORDER) `div` ORDER = -1) as H2.
  { replace (- ORDER) with (-1 * ORDER) by lia. apply Z.div_mul. lia. }
  assert (0 `div` ORDER = 0) as H3 by (apply Z.div_0_l; lia).
  unfold side_point, corner_point.
  assert (k = 0 ∨ k = 1 ∨ k = 2 ∨ k = 3) as [-> | [-> | [-> | ->]]] by lia;
    simpl; rewrite ?Z.sub_0_r, ?Z.sub_diag, ?Z.sub_0_l, ?H1, ?H2, ?H3; simpl;
    repeat case_decide; try lia; do 2 f_equal; lia.
Qed.

Lemma locate_Inside (ORDER i j : Z) :
  1 ≤ ORDER → 0 < i < ORDER → 0 < j < ORDER →
  locate ORDER i j = Some (Inside i j).
Proof.
  intros HO Hi Hj. rewrite locate_unfold by done.
  repeat case_decide; try lia; done.
Qed.

Lemma bipolynomial_node_at (ORDER i j : Z) :
  0 ≤ i ≤ ORDER → 0 ≤ j ≤ ORDER →
  ∃ n, 0 ≤ n < (ORDER + 1) ^ 2 ∧ bipolynomial_node_coords ORDER n = (i, j).
Proof.
  intros Hi Hj. exists (i * (ORDER + 1) + j). split; [rewrite Z.pow_2_r; nia|].
  unfold bipolynomial_node_coords. f_equal.
  - rewrite Z.div_add_l by lia. rewrite Z.div_small by lia. lia.
  - rewrite Z.add_comm, Z.mod_add by lia. apply Z.mod_small. lia.
Qed.

Lemma physical_node_at_range (mesh : Quadmesh2D.t) (ORDER q : Z) (ij : Z * Z)
    (node : physical_node) :
  physical_node_at mesh ORDER q ij = Some node →
  0 ≤ q < Quadmesh2D.cell_count mesh.
Proof.
  unfold physical_node_at. intros H.
  destruct (locate ORDER ij.1 ij.2) as [[k|k pos|i j]|]; simplify_eq/=.
  - destruct (arr2_get (Quadmesh2D.quad_vertex_indices mesh) q k) eqn:Hv; simplify_eq/=.
    unfold arr2_get in Hv.
    destruct (arr_get (Quadmesh2D.quad_vertex_indices mesh) q) eqn:Hq; simplify_eq/=.
    by apply arr_get_lt in Hq.
  - destruct (side_edge mesh q k) as [e|] eqn:He; simplify_eq/=.
    unfold side_edge in He. apply head_Some_elem_of in He.
    unfold side_edges in He. apply list_elem_of_filter in He as [He _].
    apply Is_true_true in He. by apply edge_on_side_range in He as (? & _).
  - destruct (arr_get (Quadmesh2D.quad_vertex_indices mesh) q) eqn:Hq; simplify_eq/=.
    by apply arr_get_lt in Hq.
Qed.

Section realization.
Variable mesh : Quadmesh2D.t.
Hypothesis Hmesh : mesh_consistent mesh = true.
Hypothesis Hused : vertices_used mesh = true.
Variable ORDER : Z.
Hypothesis HORDER : 1 ≤ ORDER.

Lemma vertex_used (v : Z) :
  0 ≤ v < Quadmesh2D.vertex_count mesh →
  ∃ q k, arr2_get (Quadmesh2D.quad_vertex_indices mesh) q k = Some v ∧ 0 ≤ k ≤ 3.
Proof.
  intros Hv. unfold vertices_used in Hused. rewrite forallb_seqZ in Hused.
  specialize (Hused v ltac:(lia)).
  apply existsb_exists in Hused as (quad & Hin & Hv').
  apply bool_decide_eq_true in Hv'.
  apply list_elem_of_In, list_elem_of_lookup in Hin as [q Hq].
  assert (∃ k, vec4_get quad k = Some v ∧ 0 ≤ k ≤ 3) as (k & Hk & Hr).
  { unfold vec4_elements in Hv'. rewrite !elem_of_cons in Hv'.
    destruct Hv' as [-> | [-> | [-> | [-> | []%elem_of_nil]]]];
      [exists 0 | exists 1 | exists 2 | exists 3]; split; (done || lia). }
  exists (Z.of_nat q), k. split; [|done].
  unfold arr2_get, arr_get. rewrite decide_True by lia.
  rewrite Nat2Z.id, Hq. done.
Qed.

Lemma physical_node_realized (node : physical_node) :
  physical_node_valid mesh ORDER node →
  ∃ q i j, physical_node_at mesh ORDER q (i, j) = Some node.
Proof.
  destruct node as [v|e pos|q i j]; simpl.
  - intros Hv. destruct (vertex_used v Hv) as (q & k & Hget & Hk).
    exists q, (corner_point ORDER k).1, (corner_point ORDER k).2.
    unfold physical_node_at. simpl. rewrite locate_corner_point by done. simpl.
    by rewrite Hget.
  - intros [He Hpos].
    destruct (mesh_consistent_spec mesh Hmesh) as (_ & _ & _ & Hedge & _).
    specialize (Hedge e He). unfold edge_ok in Hedge.
    destruct (arr_get (Quadmesh2D.edge_quad_indices mesh) e)
      as [edge_quads|] eqn:Heq; [|done].
    cbn [forallb] in Hedge. rewrite !andb_true_iff in Hedge.
    destruct Hedge as (H0 & _).
    apply existsb_exists in H0 as (k & _ & Hon).
    destruct (edge_on_side_range mesh _ _ _ Hon) as (Hq & Hk & _).
    destruct (side_edge_spec mesh Hmesh _ k Hq Hk) as (e' & Hside & Hon' & Huniq).
    apply Huniq in Hon as ->.
    pose proof Hon' as (edge & ? & quad & a & b & Hev & _ & Hquad & Hs & _)%edge_on_side_spec.
    apply quad_side_Some in Hs as (_ & Ha & _).
    set (pos' := if decide (a = v2_0 edge) then pos else ORDER - pos).
    assert (1 ≤ pos' ≤ ORDER - 1) as Hpos' by (unfold pos'; case_decide; lia).
    exists (v2_0 edge_quads), (side_point ORDER k pos').1, (side_point ORDER k pos').2.
    unfold physical_node_at. simpl. rewrite locate_side_point by done. simpl.
    rewrite Hside. simpl. unfold arr2_get. rewrite Hquad. simpl. rewrite Ha. simpl.
    rewrite Hev. simpl. do 2 f_equal. unfold pos'. repeat case_decide; lia.
  - intros (Hq & Hi & Hj).
    destruct (arr_get_is_Some (Quadmesh2D.quad_vertex_indices mesh) q Hq) as [quad Hquad].
    exists q, i, j. unfold physical_node_at. simpl.
    rewrite locate_Inside by lia. simpl. by rewrite Hquad.
Qed.

End realization.

Lemma serendipity_node_at (node_type_and_type_index : Z → node_type * Z)
    (side_offset_and_index : Z → Z * Z) (ORDER i j : Z) (loc : location) :
  1 ≤ ORDER →
  serendipity_classifier_ok node_type_and_type_index side_offset_and_index ORDER →
  locate ORDER i j = Some loc → (∀ i' j', loc ≠ Inside i' j') →
  ∃ n, 0 ≤ n < 4 * ORDER
       ∧ serendipity_node_coords node_type_and_type_index side_offset_and_index ORDER n
         = (i, j).
Proof.
  intros HO (_ & Hvertex & Hedge) Hloc Hboundary.
  assert (∀ t, 0 ≤ t ≤ 3 → (t `div` 2 * ORDER, t `mod` 2 * ORDER) = (i, j) →
            ∃ n, 0 ≤ n < 4 * ORDER
                 ∧ serendipity_node_coords node_type_and_type_index
                     side_offset_and_index ORDER n = (i, j)) as Hv.
  { intros t Ht Hij. destruct (Hvertex t Ht) as (n & Hn & Hty).
    exists n. split; [done|]. unfold serendipity_node_coords. by rewrite Hty. }
  assert (∀ (ty : node_type) (far : bool) (idx : Z), ty ≠ VERTEX → 0 ≤ idx ≤ ORDER - 2 →
            (match ty with
             | EDGE_X => (1 + idx, if far then ORDER else 0)
             | _ => (if far then ORDER else 0, 1 + idx)
             end : Z * Z) = (i, j) →
            ∃ n, 0 ≤ n < 4 * ORDER
                 ∧ serendipity_node_coords node_type_and_type_index
                     side_offset_and_index ORDER n = (i, j)) as He.
  { intros ty far idx Hty Hidx Hij.
    destruct (Hedge ty far idx Hty Hidx) as (n & t & off & Hn & Hnt & Hoff & Hfar).
    exists n. split; [done|]. unfold serendipity_node_coords. rewrite Hnt, Hoff.
    rewrite <- Hij.
    destruct ty; [done| |]; destruct far; case_decide; try done;
      destruct Hfar as [Hf1 Hf2];
      first [by specialize (Hf1 ltac:(assumption)) | by specialize (Hf2 eq_refl)]. }
  rewrite locate_unfold in Hloc by done.
  revert Hloc. repeat case_decide; intros; simplify_eq.
  - apply (Hv 0); [lia|]. simpl. f_equal; lia.
  - apply (Hv 1); [lia|]. change (1 `div` 2) with 0. change (1 `mod` 2) with 1.
    f_equal; lia.
  - apply (He EDGE_Y false (j - 1)); [done|lia|]. f_equal; lia.
  - apply (Hv 2); [lia|]. change (2 `div` 2) with 1. change (2 `mod` 2) with 0.
    f_equal; lia.
  - apply (Hv 3); [lia|]. change (3 `div` 2) with 1. change (3 `mod` 2) with 1.
    f_equal; lia.
  - apply (He EDGE_Y true (j - 1)); [done|lia|]. f_equal; lia.
  - apply (He EDGE_X false (i - 1)); [done|lia|]. f_equal; lia.
  - apply (He EDGE_X true (i - 1)); [done|lia|]. f_equal; lia.
  - by destruct (Hboundary i j).
Qed.

Section on_edge_realization.
Variable mesh : Quadmesh2D.t.
Hypothesis Hmesh : mesh_consistent mesh = true.
Variable ORDER : Z.
Hypothesis HORDER : 1 ≤ ORDER.

(** An interior point of an edge is a local node of each quad that has
    the edge on one of its slots. *)
Lemma edge_node_realized_on_side (q k e pos : Z) :
  edge_on_side mesh q k e = true → 1 ≤ pos ≤ ORDER - 1 →
  ∃ i j, physical_node_at mesh ORDER q (i, j) = Some (EdgeNode e pos).
Proof.
  intros Hon Hpos.
  destruct (edge_on_side_range mesh _ _ _ Hon) as (Hq & Hk & _).
  destruct (side_edge_spec mesh Hmesh _ k Hq Hk) as (e' & Hside & Hon' & Huniq).
  apply Huniq in Hon as ->.
  pose proof Hon' as (edge & ? & quad & a & b & Hev & _ & Hquad & Hs & _)%edge_on_side_spec.
  apply quad_side_Some in Hs as (_ & Ha & _).
  set (pos' := if decide (a = v2_0 edge) then pos else ORDER - pos).
  assert (1 ≤ pos' ≤ ORDER - 1) as Hpos' by (unfold pos'; case_decide; lia).
  exists (side_point ORDER k pos').1, (side_point ORDER k pos').2.
  unfold physical_node_at. simpl. rewrite locate_side_point by done. simpl.
  rewrite Hside. simpl. unfold arr2_get. rewrite Hquad. simpl. rewrite Ha. simpl.
  rewrite Hev. simpl. do 2 f_equal. unfold pos'. repeat case_decide; lia.
Qed.

(** The two ends of an edge are corners of each quad that has the edge
    on one of its slots. *)
Lemma edge_end_realized_on_side (q k e v : Z) (edge_vtx : vec2i) :
  edge_on_side mesh q k e = true →
  arr_get (Quadmesh2D.edge_vertex_indices mesh) e = Some edge_vtx →
  v = v2_0 edge_vtx ∨ v = v2_1 edge_vtx →
  ∃ i j, physical_node_at mesh ORDER q (i, j) = Some (VertexNode v).
Proof.
  intros Hon Hev Hv.
  pose proof Hon as (edge & ? & quad & a & b & Hev' & _ & Hquad & Hs & _ & Hm)%edge_on_side_spec.
  simplify_eq. apply edge_matches_spec in Hm.
  apply quad_side_Some in Hs as (Hk & Ha & Hb).
  assert (∃ k', 0 ≤ k' ≤ 3 ∧ vec4_get quad k' = Some v) as (k' & Hk' & Hget).
  { assert (v = a ∨ v = b) as [->| ->] by (destruct Hv, Hm; intuition congruence).
    - by exists k.
    - exists ((k + 1) `mod` 4). split; [|done].
      pose proof (Z.mod_pos_bound (k + 1) 4 ltac:(lia)). lia. }
  exists (corner_point ORDER k').1, (corner_point ORDER k').2.
  unfold physical_node_at. simpl. rewrite locate_corner_point by done. simpl.
  unfold arr2_get. rewrite Hquad. simpl. by rewrite Hget.
Qed.

(** Every physical node on an edge is a local node of each of the quads
    listed for the edge. *)
Lemma on_edge_realized (e q : Z) (edge_quads : vec2i) (node : physical_node) :
  arr_get (Quadmesh2D.edge_quad_indices mesh) e = Some edge_quads →
  q = v2_0 edge_quads ∨ q = v2_1 edge_quads →
  on_edge mesh e node → physical_node_valid mesh ORDER node →
  ∃ i j, physical_node_at mesh ORDER q (i, j) = Some node.
Proof.
  intros Heq Hq Hon Hvalid.
  destruct (mesh_consistent_spec mesh Hmesh) as (_ & Hlen & _ & Hedge & _).
  assert (0 ≤ e < Quadmesh2D.side_count mesh) as He.
  { apply arr_get_lt in Heq. unfold Quadmesh2D.side_count. lia. }
  specialize (Hedge e He). unfold edge_ok in Hedge. rewrite Heq in Hedge.
  cbn [forallb] in Hedge. rewrite !andb_true_iff in Hedge.
  destruct Hedge as (H0 & H1 & _).
  assert (∃ k, edge_on_side mesh q k e = true) as [k Hk].
  { destruct Hq as [-> | ->];
      [apply existsb_exists in H0 as (k & _ & ?) | apply existsb_exists in H1 as (k & _ & ?)];
      by exists k. }
  destruct node as [v|e' pos|? ? ?]; simpl in *.
  - destruct Hon as (edge_vtx & Hev & Hv).
    by eapply edge_end_realized_on_side.
  - subst e'. apply (edge_node_realized_on_side q k e pos Hk). lia.
  - done.
Qed.

End on_edge_realization.

Lemma physical_node_at_boundary (mesh : Quadmesh2D.t) (ORDER q i j : Z)
    (node : physical_node) :
  physical_node_at mesh ORDER q (i, j) = Some node →
  (∀ q' i' j', node ≠ CellNode q' i' j') →
  ∃ loc, locate ORDER i j = Some loc ∧ ∀ i' j', loc ≠ Inside i' j'.
Proof.
  unfold physical_node_at. simpl. intros H Hnode.
  destruct (locate ORDER i j) as [[k|k pos|i' j']|]; simplify_eq/=.
  - by eexists.
  - by eexists.
  - destruct (arr_get (Quadmesh2D.quad_vertex_indices mesh) q); simplify_eq/=.
    by destruct (Hnode q i' j').
Qed.

(** ** Continuity *)

(** C1.  On a consistent mesh, with the table computed by the builder
    under any schedule, for every interior edge shared by two distinct
    quads q0 and q1 and every physical node on that edge, the local node
    of q0 and the local node of q1 at that physical node are given the
    same global index, by the bipolynomial and by the serendipity
    [element_node_index]; and both quads do have a local node at every
    physical node of the edge. *)
Theorem continuity (mesh : Quadmesh2D.t) (ORDER : Z)
    (uninit : list vec4i) (schedule : list Z)
    (node_type_and_type_index : Z → node_type * Z)
    (side_offset_and_index : Z → Z * Z) :
  mesh_consistent mesh = true →
  1 ≤ ORDER →
  length uninit = length (Quadmesh2D.quad_vertex_indices mesh) →
  is_schedule mesh schedule →
  ∃ table,
    _compute_quad_edge_indices mesh uninit schedule = Some table
    ∧ ∀ e q0 q1 node,
        arr_get (Quadmesh2D.edge_quad_indices mesh) e = Some (Vec2i q0 q1) →
        q0 ≠ q1 →
        on_edge mesh e node →
        (∀ n0 n1,
           0 ≤ n0 < (ORDER + 1) ^ 2 → 0 ≤ n1 < (ORDER + 1) ^ 2 →
           physical_node_at mesh ORDER q0 (bipolynomial_node_coords ORDER n0) = Some node →
           physical_node_at mesh ORDER q1 (bipolynomial_node_coords ORDER n1) = Some node →
           ∃ index,
             Quadmesh2DBipolynomialSpaceTopology.element_node_index
               ORDER mesh (topo_arg_of mesh table) q0 n0 = Some index
             ∧ Quadmesh2DBipolynomialSpaceTopology.element_node_index
                 ORDER mesh (topo_arg_of mesh table) q1 n1 = Some index)
        ∧ (∀ n0 n1,
             serendipity_node_ok node_type_and_type_index side_offset_and_index ORDER n0 →
             serendipity_node_ok node_type_and_type_index side_offset_and_index ORDER n1 →
             physical_node_at mesh ORDER q0
               (serendipity_node_coords node_type_and_type_index
                  side_offset_and_index ORDER n0) = Some node →
             physical_node_at mesh ORDER q1
               (serendipity_node_coords node_type_and_type_index
                  side_offset_and_index ORDER n1) = Some node →
             ∃ index,
               Quadmesh2DSerendipitySpaceTopology.element_node_index
                 node_type_and_type_index side_offset_and_index
                 ORDER mesh (topo_arg_of mesh table) q0 n0 = Some index
               ∧ Quadmesh2DSerendipitySpaceTopology.element_node_index
                   node_type_and_type_index side_offset_and_index
                   ORDER mesh (topo_arg_of mesh table) q1 n1 = Some index)
        ∧ (physical_node_valid mesh ORDER node →
           (∃ n0 n1,
              0 ≤ n0 < (ORDER + 1) ^ 2 ∧ 0 ≤ n1 < (ORDER + 1) ^ 2
              ∧ physical_node_at mesh ORDER q0 (bipolynomial_node_coords ORDER n0)
                = Some node
              ∧ physical_node_at mesh ORDER q1 (bipolynomial_node_coords ORDER n1)
                = Some node)
           ∧ (serendipity_classifier_ok
                node_type_and_type_index side_offset_and_index ORDER →
              ∃ n0 n1,
                0 ≤ n0 < 4 * ORDER ∧ 0 ≤ n1 < 4 * ORDER
                ∧ physical_node_at mesh ORDER q0
                    (serendipity_node_coords node_type_and_type_index
                       side_offset_and_index ORDER n0) = Some node
                ∧ physical_node_at mesh ORDER q1
                    (serendipity_node_coords node_type_and_type_index
                       side_offset_and_index ORDER n1) = Some node)).
Proof.
  intros Hmesh HO Hlen Hsched.
  destruct (builder_correct mesh Hmesh uninit schedule Hlen Hsched)
    as (table & Hrun & Htable).
  exists table. split; [done|].
  intros e q0 q1 node Heq _ Hon. split; [|split].
  - intros n0 n1 Hn0 Hn1 Hp0 Hp1.
    pose proof (physical_node_at_range _ _ _ _ _ Hp0) as Hq0.
    pose proof (physical_node_at_range _ _ _ _ _ Hp1) as Hq1.
    destruct (bipolynomial_index_physical mesh Hmesh table Htable ORDER HO q0 n0 Hq0 Hn0)
      as (node0 & Hp0' & _ & ->).
    destruct (bipolynomial_index_physical mesh Hmesh table Htable ORDER HO q1 n1 Hq1 Hn1)
      as (node1 & Hp1' & _ & ->).
    simplify_eq. by eexists.
  - intros n0 n1 Hn0 Hn1 Hp0 Hp1.
    pose proof (physical_node_at_range _ _ _ _ _ Hp0) as Hq0.
    pose proof (physical_node_at_range _ _ _ _ _ Hp1) as Hq1.
    destruct (serendipity_index_physical mesh Hmesh table Htable ORDER HO
                node_type_and_type_index side_offset_and_index q0 n0 Hq0 Hn0)
      as (node0 & index0 & Hp0' & _ & Hi0 & ->).
    destruct (serendipity_index_physical mesh Hmesh table Htable ORDER HO
                node_type_and_type_index side_offset_and_index q1 n1 Hq1 Hn1)
      as (node1 & index1 & Hp1' & _ & Hi1 & ->).
    simplify_eq. by eexists.
  - intros Hvalid.
    assert (∀ q' i' j', node ≠ CellNode q' i' j') as Hnode.
    { intros q' i' j' ->. done. }
    destruct (on_edge_realized mesh Hmesh ORDER HO e q0 _ node Heq
                ltac:(by left) Hon Hvalid) as (i0 & j0 & Hp0).
    destruct (on_edge_realized mesh Hmesh ORDER HO e q1 _ node Heq
                ltac:(by right) Hon Hvalid) as (i1 & j1 & Hp1).
    destruct (physical_node_at_boundary _ _ _ _ _ _ Hp0 Hnode) as (loc0 & Hl0 & Hb0).
    destruct (physical_node_at_boundary _ _ _ _ _ _ Hp1 Hnode) as (loc1 & Hl1 & Hb1).
    split.
    + destruct (locate_grid _ _ _ _ Hl0) as [Hi0 Hj0].
      destruct (locate_grid _ _ _ _ Hl1) as [Hi1 Hj1].
      destruct (bipolynomial_node_at ORDER i0 j0 Hi0 Hj0) as (n0 & Hn0 & Hc0).
      destruct (bipolynomial_node_at ORDER i1 j1 Hi1 Hj1) as (n1 & Hn1 & Hc1).
      exists n0, n1. by rewrite Hc0, Hc1.
    + intros Hclass.
      destruct (serendipity_node_at _ _ ORDER i0 j0 loc0 HO Hclass Hl0 Hb0)
        as (n0 & Hn0 & Hc0).
      destruct (serendipity_node_at _ _ ORDER i1 j1 loc1 HO Hclass Hl1 Hb1)
        as (n1 & Hn1 & Hc1).
      exists n0, n1. by rewrite Hc0, Hc1.
Qed.

Lemma continuity_witness :
  ∃ index,
    Quadmesh2DBipolynomialSpaceTopology.element_node_index
      2 strip_mesh (topo_arg_of strip_mesh strip_table) 0 7 = Some index
    ∧ Quadmesh2DBipolynomialSpaceTopology.element_node_index
        2 strip_mesh (topo_arg_of strip_mesh strip_table) 1 1 = Some index.
Proof.
  destruct (continuity strip_mesh 2 [Vec4i 0 0 0 0; Vec4i 0 0 0 0] [0; 1; 2; 3; 4; 5; 6]
              sample_node_type_and_type_index sample_side_offset_and_index)
    as (table & Hrun & Hcont);
    [reflexivity | lia | reflexivity | exact (Permutation_refl _) |].
  vm_compute in Hrun. injection Hrun as <-.
  destruct (Hcont 1 0 1 (EdgeNode 1 1) eq_refl ltac:(lia) eq_refl) as (Hb & _ & _).
  exact (Hb 7 1 ltac:(lia) ltac:(lia) eq_refl eq_refl).
Defined.

(** ** Corner nodes *)

(** C7.  On a consistent mesh, a bipolynomial node whose two grid
    coordinates are both 0 or ORDER, and a serendipity node of vertex
    type, is given the mesh's own vertex id of the corner of the element
    at which the node sits, which is below the vertex count.  The
    bipolynomial corners (0, 0), (ORDER, 0), (ORDER, ORDER), (0, ORDER)
    are the local vertices 0, 1, 2, 3; the serendipity vertex nodes of
    type index 0, 1, 2, 3 sit at the corners (0, 0), (0, ORDER),
    (ORDER, 0), (ORDER, ORDER), which are the local vertices 0, 3, 1,
    2. *)
Theorem corner_identity (mesh : Quadmesh2D.t) (topo_arg : Quadmesh2DTopologyArg.t)
    (node_type_and_type_index : Z → node_type * Z)
    (side_offset_and_index : Z → Z * Z) (ORDER element_index : Z) :
  mesh_consistent mesh = true →
  1 ≤ ORDER →
  0 ≤ element_index < Quadmesh2D.cell_count mesh →
  (∀ n,
     let node_i := n `div` (ORDER + 1) in
     let node_j := n - (ORDER + 1) * node_i in
     node_i = 0 ∨ node_i = ORDER → node_j = 0 ∨ node_j = ORDER →
     ∃ k v,
       k = (if decide (node_i = 0) then if decide (node_j = 0) then 0 else 3
            else if decide (node_j = 0) then 1 else 2)
       ∧ corner_point ORDER k = (node_i, node_j)
       ∧ arr2_get (Quadmesh2D.quad_vertex_indices mesh) element_index k = Some v
       ∧ Quadmesh2DBipolynomialSpaceTopology.element_node_index
           ORDER mesh topo_arg element_index n = Some v
       ∧ 0 ≤ v < Quadmesh2D.vertex_count mesh)
  ∧ (∀ n type_index,
       node_type_and_type_index n = (VERTEX, type_index) →
       0 ≤ type_index ≤ 3 →
       ∃ k v,
         k = (if decide (type_index = 0) then 0
              else if decide (type_index = 1) then 3
              else if decide (type_index = 2) then 1 else 2)
         ∧ vec4_get Quadmesh2DSerendipitySpaceTopology.SHAPE_TO_QUAD_IDX type_index = Some k
         ∧ corner_point ORDER k
           = serendipity_node_coords node_type_and_type_index side_offset_and_index
               ORDER n
         ∧ physical_node_at mesh ORDER element_index
             (serendipity_node_coords node_type_and_type_index side_offset_and_index
                ORDER n)
           = Some (VertexNode v)
         ∧ arr2_get (Quadmesh2D.quad_vertex_indices mesh) element_index k = Some v
         ∧ Quadmesh2DSerendipitySpaceTopology.element_node_index
             node_type_and_type_index side_offset_and_index
             ORDER mesh topo_arg element_index n = Some v
         ∧ 0 ≤ v < Quadmesh2D.vertex_count mesh).
Proof.
  intros Hm HO Hq. split.
  - intros n node_i node_j Hi Hj.
    unfold Quadmesh2DBipolynomialSpaceTopology.element_node_index,
      Quadmesh2DBipolynomialSpaceTopology.element_node_index_at.
    fold node_i. fold node_j.
    set (k := if decide (node_i = 0) then if decide (node_j = 0) then 0 else 3
              else if decide (node_j = 0) then 1 else 2).
    assert (0 ≤ k ≤ 3) as Hk by (unfold k; repeat case_decide; lia).
    destruct (consistent_vertex mesh element_index k Hm Hq Hk) as (v & Hv & Hrange).
    exists k, v. split; [done|]. split; [|split; [done|split; [|done]]].
    + unfold corner_point, k. repeat case_decide; f_equal; lia.
    + revert Hv. unfold k.
      repeat case_decide; try lia; intros ->; done.
  - intros n type_index Hn Ht.
    unfold Quadmesh2DSerendipitySpaceTopology.element_node_index. rewrite Hn.
    destruct (decide (VERTEX = VERTEX)) as [_|]; [|done].
    set (k := if decide (type_index = 0) then 0
              else if decide (type_index = 1) then 3
              else if decide (type_index = 2) then 1 else 2).
    assert (0 ≤ k ≤ 3) as Hk3 by (unfold k; repeat case_decide; lia).
    assert (vec4_get Quadmesh2DSerendipitySpaceTopology.SHAPE_TO_QUAD_IDX type_index
            = Some k) as Hk.
    { unfold vec4_get, k. repeat case_decide; try done; lia. }
    assert (corner_point ORDER k
            = serendipity_node_coords node_type_and_type_index side_offset_and_index
                ORDER n) as Hcorner.
    { unfold serendipity_node_coords. rewrite Hn.
      assert (type_index = 0 ∨ type_index = 1 ∨ type_index = 2 ∨ type_index = 3)
        as [-> | [-> | [-> | ->]]] by lia;
        unfold corner_point, k; repeat case_decide; try lia;
        [change (0 `div` 2) with 0; change (0 `mod` 2) with 0
        |change (1 `div` 2) with 0; change (1 `mod` 2) with 1
        |change (2 `div` 2) with 1; change (2 `mod` 2) with 0
        |change (3 `div` 2) with 1; change (3 `mod` 2) with 1];
        f_equal; lia. }
    destruct (consistent_vertex mesh element_index k Hm Hq Hk3) as (v & Hv & Hrange).
    exists k, v. rewrite Hk. simpl. rewrite Hv.
    split; [done|]. split; [done|]. split; [done|]. split; [|done].
    rewrite <- Hcorner. unfold physical_node_at.
    rewrite (locate_corner_point ORDER k) by done. simpl. by rewrite Hv.
Qed.

Lemma corner_identity_witness :
  (∃ v, Quadmesh2DBipolynomialSpaceTopology.element_node_index
          2 strip_mesh (topo_arg_of strip_mesh strip_table) 0 8 = Some v
        ∧ 0 ≤ v < 6)
  ∧ (∃ k v,
       corner_point 2 k
       = serendipity_node_coords sample_node_type_and_type_index
           sample_side_offset_and_index 2 1
       ∧ arr2_get (Quadmesh2D.quad_vertex_indices strip_mesh) 0 k = Some v
       ∧ Quadmesh2DSerendipitySpaceTopology.element_node_index
           sample_node_type_and_type_index sample_side_offset_and_index
           2 strip_mesh (topo_arg_of strip_mesh strip_table) 0 1 = Some v
       ∧ 0 ≤ v < 6).
Proof.
  destruct (corner_identity strip_mesh (topo_arg_of strip_mesh strip_table)
              sample_node_type_and_type_index sample_side_offset_and_index 2 0)
    as [Hb Hs]; [reflexivity | lia | unfold Quadmesh2D.cell_count; simpl; lia |].
  split.
  - destruct (Hb 8) as (k & v & _ & _ & _ & Hv & Hr);
      [right; reflexivity | right; reflexivity |].
    exists v. split; [exact Hv | exact Hr].
  - destruct (Hs 1 1) as (k & v & _ & _ & Hc & _ & Hk & Hv & Hr);
      [reflexivity | lia |].
    exists k, v. split; [exact Hc|]. split; [exact Hk|]. split; [exact Hv | exact Hr].
Defined.

(** ** Bijectivity *)

Lemma physical_node_at_locate (mesh : Quadmesh2D.t) (ORDER q i j : Z)
    (node : physical_node) :
  physical_node_at mesh ORDER q (i, j) = Some node →
  0 ≤ i ≤ ORDER ∧ 0 ≤ j ≤ ORDER.
Proof.
  unfold physical_node_at. simpl. intros H.
  destruct (locate ORDER i j) as [loc|] eqn:Hloc; [|done].
  by eapply locate_grid.
Qed.


(** The sample classifier meets the expectations of the topology at
    every order. *)
Lemma sample_classifier_ok (ORDER : Z) :
  1 ≤ ORDER →
  serendipity_classifier_ok
    sample_node_type_and_type_index sample_side_offset_and_index ORDER.
Proof.
  intros HO. split; [|split].
  - intros n Hn. unfold serendipity_node_ok, sample_node_type_and_type_index.
    case_decide; [lia|].
    assert (0 ≤ ((n - 4) `div` 2) `div` 2 ≤ ORDER - 2).
    { split; [apply Z.div_pos; [apply Z.div_pos|]; lia|].
      assert (((n - 4) `div` 2) `div` 2 < ORDER - 1); [|lia].
      apply Z.div_lt_upper_bound; [lia|]. apply Z.div_lt_upper_bound; lia. }
    by case_decide.
  - intros t Ht. exists t. split; [lia|].
    unfold sample_node_type_and_type_index. by rewrite decide_True by lia.
  - intros ty far idx Hty Hidx.
    set (off := if far then 1 else 0).
    set (side := match ty with EDGE_X => 0 | _ => 1 end).
    set (t := 2 * idx + off).
    assert (0 ≤ off ≤ 1) as Hoff by (unfold off; destruct far; lia).
    assert (0 ≤ side ≤ 1) as Hside by (unfold side; destruct ty; lia).
    assert ((4 + 2 * t + side - 4) `div` 2 = t) as Ht.
    { replace (4 + 2 * t + side - 4) with (t * 2 + side) by lia.
      rewrite Z.div_add_l by lia. rewrite Z.div_small by lia. lia. }
    assert (t `div` 2 = idx) as Hidx'.
    { unfold t. replace (2 * idx + off) with (idx * 2 + off) by lia.
      rewrite Z.div_add_l by lia. rewrite Z.div_small by lia. lia. }
    exists (4 + 2 * t + side), t, off. split; [unfold t; lia|]. split; [|split].
    + unfold sample_node_type_and_type_index. rewrite decide_False by lia.
      rewrite Ht. f_equal. unfold side.
      destruct ty; [done| |]; case_decide; try done; lia.
    + unfold sample_side_offset_and_index. rewrite Hidx'. f_equal. unfold t. lia.
    + unfold off. destruct far; split; intros; (done || lia).
Qed.



(** ** Further properties of the topology builder *)

Lemma vec4_ext (r r' : vec4i) :
  (∀ k, vec4_get r k = vec4_get r' k) → r = r'.
Proof.
  intros H. destruct r as [a b c d], r' as [a' b' c' d'].
  pose proof (H 0) as H0. pose proof (H 1) as H1.
  pose proof (H 2) as H2. pose proof (H 3) as H3.
  vm_compute in H0, H1, H2, H3. by simplify_eq.
Qed.

(** Two tables of the same shape with the same cells are equal. *)
Lemma table_ext (table table' : list vec4i) :
  length table = length table' →
  (∀ q k, arr2_get table q k = arr2_get table' q k) →
  table = table'.
Proof.
  intros Hlen Hcells. apply list_eq. intros i.
  destruct (table !! i) as [r|] eqn:Hr.
  - destruct (lookup_lt_is_Some_2 table' i) as [r' Hr'].
    { rewrite <- Hlen. by eapply lookup_lt_Some. }
    rewrite Hr'. f_equal. apply vec4_ext. intros k.
    assert (∀ t : list vec4i, arr_get t (Z.of_nat i) = t !! i) as Hget.
    { intros t. unfold arr_get. rewrite decide_True by lia. by rewrite Nat2Z.id. }
    specialize (Hcells (Z.of_nat i) k). unfold arr2_get in Hcells.
    rewrite !Hget, Hr, Hr' in Hcells. exact Hcells.
  - symmetry. apply lookup_ge_None. rewrite <- Hlen. by apply lookup_ge_None.
Qed.

Lemma edge_matches_swap (edge_vtx : vec2i) (a b : Z) :
  edge_matches (Vec2i (v2_1 edge_vtx) (v2_0 edge_vtx)) a b = edge_matches edge_vtx a b.
Proof. unfold edge_matches. simpl. apply orb_comm. Qed.

(** X1.  [_find_edge_index_in_quad] does not depend on the orientation of
    the edge: swapping the two vertices of the edge gives the same slot. *)
Theorem find_edge_index_orientation (edge_vtx : vec2i) (quad_vtx : vec4i) :
  _find_edge_index_in_quad (Vec2i (v2_1 edge_vtx) (v2_0 edge_vtx)) quad_vtx
  = _find_edge_index_in_quad edge_vtx quad_vtx.
Proof.
  unfold _find_edge_index_in_quad.
  induction (seqZ 0 3) as [|k ks IH]; [done|].
  cbn [find_edge_loop].
  destruct (vec4_get quad_vtx k) as [a|]; [|done].
  destruct (vec4_get quad_vtx (k + 1)) as [b|]; [|done].
  cbn [mbind option_bind]. by rewrite edge_matches_swap, IH.
Qed.

(** X2.  On a quad with four distinct vertices, an edge that joins the
    local vertices [k] and [(k + 1) mod 4], in either orientation, is
    found at slot [k]; this includes the wrap-around side 3, which the
    loop never tests. *)
Theorem find_edge_index_finds_side (edge_vtx : vec2i) (quad_vtx : vec4i) (k a b : Z) :
  NoDup (vec4_elements quad_vtx) →
  vec4_get quad_vtx k = Some a →
  vec4_get quad_vtx ((k + 1) `mod` 4) = Some b →
  (v2_0 edge_vtx = a ∧ v2_1 edge_vtx = b) ∨ (v2_1 edge_vtx = a ∧ v2_0 edge_vtx = b) →
  _find_edge_index_in_quad edge_vtx quad_vtx = Some k.
Proof.
  intros Hnd Ha Hb Hm.
  apply (find_edge_index_on_side edge_vtx quad_vtx k a b Hnd).
  - unfold quad_side. rewrite Ha. simpl. by rewrite Hb.
  - by apply edge_matches_spec.
Qed.

Lemma find_edge_index_finds_side_witness :
  _find_edge_index_in_quad (Vec2i 1 4) (Vec4i 1 2 5 4) = Some 3.
Proof.
  apply (find_edge_index_finds_side (Vec2i 1 4) (Vec4i 1 2 5 4) 3 4 1);
    [ | reflexivity | reflexivity | right; split; reflexivity].
  apply (bool_decide_unpack _). vm_compute. exact I.
Defined.

(** What a successful run of one thread has read. *)
Lemma kernel_Some_inv (edge_quad_indices edge_vertex_indices : list vec2i)
    (quad_vertex_indices table table' : list vec4i) (e : Z) :
  _compute_quad_edge_indices_kernel
    edge_quad_indices edge_vertex_indices quad_vertex_indices table e = Some table' →
  ∃ edge_vtx edge_quads q0_vtx q1_vtx k0 k1,
    arr_get edge_vertex_indices e = Some edge_vtx
    ∧ arr_get edge_quad_indices e = Some edge_quads
    ∧ arr_get quad_vertex_indices (v2_0 edge_quads) = Some q0_vtx
    ∧ arr_get quad_vertex_indices (v2_1 edge_quads) = Some q1_vtx
    ∧ _find_edge_index_in_quad edge_vtx q0_vtx = Some k0
    ∧ _find_edge_index_in_quad edge_vtx q1_vtx = Some k1
    ∧ is_Some (arr_get table (v2_0 edge_quads))
    ∧ is_Some (arr_get table (v2_1 edge_quads)).
Proof.
  unfold _compute_quad_edge_indices_kernel. intros H.
  destruct (arr_get edge_vertex_indices e) as [edge_vtx|]; simplify_eq/=.
  destruct (arr_get edge_quad_indices e) as [edge_quads|]; simplify_eq/=.
  destruct (arr_get quad_vertex_indices (v2_0 edge_quads)) as [q0_vtx|] eqn:Hq0;
    simplify_eq/=.
  destruct (_find_edge_index_in_quad edge_vtx q0_vtx) as [k0|] eqn:Hf0; simplify_eq/=.
  destruct (arr2_set table (v2_0 edge_quads) k0 e) as [table0|] eqn:Hset0; simplify_eq/=.
  assert (is_Some (arr_get table (v2_0 edge_quads))) as Ht0.
  { unfold arr2_set in Hset0.
    destruct (arr_get table (v2_0 edge_quads)); simplify_eq/=. by eexists. }
  destruct (decide (v2_1 edge_quads ≠ v2_0 edge_quads)) as [Hne|Heq].
  - destruct (arr_get quad_vertex_indices (v2_1 edge_quads)) as [q1_vtx|] eqn:Hq1;
      simplify_eq/=.
    destruct (_find_edge_index_in_quad edge_vtx q1_vtx) as [k1|] eqn:Hf1; simplify_eq/=.
    exists edge_vtx, edge_quads, q0_vtx, q1_vtx, k0, k1.
    repeat (split; [done|]).
    unfold arr2_set in H.
    destruct (arr_get table0 (v2_1 edge_quads)) as [row|] eqn:Hrow; simplify_eq/=.
    apply arr_get_is_Some. rewrite <- (arr2_set_length _ _ _ _ _ Hset0).
    by eapply arr_get_lt.
  - assert (v2_1 edge_quads = v2_0 edge_quads) as Hsame by (by destruct (decide (v2_1 edge_quads = v2_0 edge_quads)); [|exfalso; auto]).
    exists edge_vtx, edge_quads, q0_vtx, q0_vtx, k0, k0.
    rewrite Hsame. repeat (split; [done|]). done.
Qed.

(** X3.  Running the thread of an edge a second time changes nothing. *)
Theorem kernel_idempotent (edge_quad_indices edge_vertex_indices : list vec2i)
    (quad_vertex_indices table table' : list vec4i) (e : Z) :
  _compute_quad_edge_indices_kernel
    edge_quad_indices edge_vertex_indices quad_vertex_indices table e = Some table' →
  _compute_quad_edge_indices_kernel
    edge_quad_indices edge_vertex_indices quad_vertex_indices table' e = Some table'.
Proof.
  intros Hrun.
  destruct (kernel_Some_inv _ _ _ _ _ _ Hrun)
    as (edge_vtx & edge_quads & q0_vtx & q1_vtx & k0 & k1
        & Hev & Heq & Hq0 & Hq1 & Hf0 & Hf1 & Ht0 & Ht1).
  destruct (kernel_step _ _ _ table e _ _ _ _ _ _ Hev Heq Hq0 Hq1 Hf0 Hf1 Ht0 Ht1)
    as (written & Hrun' & Hlen & Hcells).
  rewrite Hrun in Hrun'. injection Hrun' as <-.
  assert (∀ q, is_Some (arr_get table q) → is_Some (arr_get table' q)) as Hrows.
  { intros q [? Hq%arr_get_lt]. apply arr_get_is_Some. lia. }
  destruct (kernel_step _ _ _ table' e _ _ _ _ _ _ Hev Heq Hq0 Hq1 Hf0 Hf1
              (Hrows _ Ht0) (Hrows _ Ht1))
    as (again & -> & Hlen' & Hcells').
  f_equal. apply table_ext; [done|].
  intros q k. rewrite Hcells', Hcells. repeat case_decide; try done; tauto.
Qed.

Lemma kernel_idempotent_witness :
  _compute_quad_edge_indices_kernel
    (Quadmesh2D.edge_quad_indices strip_mesh)
    (Quadmesh2D.edge_vertex_indices strip_mesh)
    (Quadmesh2D.quad_vertex_indices strip_mesh)
    [Vec4i 9 1 9 9; Vec4i 9 9 9 1] 1 = Some [Vec4i 9 1 9 9; Vec4i 9 9 9 1].
Proof.
  apply (kernel_idempotent _ _ _ [Vec4i 9 9 9 9; Vec4i 9 9 9 9]). reflexivity.
Defined.

(** X4.  On a consistent mesh the threads of two edges commute: run in
    either order on a table of the right shape, they succeed and leave
    the same table. *)
Theorem kernel_threads_commute (mesh : Quadmesh2D.t) (table : list vec4i) (e1 e2 : Z) :
  mesh_consistent mesh = true →
  length table = length (Quadmesh2D.quad_vertex_indices mesh) →
  0 ≤ e1 < Quadmesh2D.side_count mesh →
  0 ≤ e2 < Quadmesh2D.side_count mesh →
  let thread :=
    _compute_quad_edge_indices_kernel
      (Quadmesh2D.edge_quad_indices mesh) (Quadmesh2D.edge_vertex_indices mesh)
      (Quadmesh2D.quad_vertex_indices mesh) in
  is_Some (thread table e1 ≫= λ table1, thread table1 e2)
  ∧ (thread table e1 ≫= λ table1, thread table1 e2)
    = (thread table e2 ≫= λ table2, thread table2 e1).
Proof.
  intros Hmesh Hlen He1 He2 thread. subst thread.
  destruct (kernel_step_consistent mesh Hmesh table e1 Hlen He1)
    as (t1 & Hr1 & Hl1 & Hc1).
  destruct (kernel_step_consistent mesh Hmesh t1 e2 ltac:(congruence) He2)
    as (t12 & Hr12 & Hl12 & Hc12).
  destruct (kernel_step_consistent mesh Hmesh table e2 Hlen He2)
    as (t2 & Hr2 & Hl2 & Hc2).
  destruct (kernel_step_consistent mesh Hmesh t2 e1 ltac:(congruence) He1)
    as (t21 & Hr21 & Hl21 & Hc21).
  rewrite Hr1, Hr2. cbn [mbind option_bind]. rewrite Hr12, Hr21.
  split; [by eexists|]. f_equal. apply table_ext; [congruence|].
  intros q k. rewrite Hc12, Hc21, Hc1, Hc2.
  destruct (edge_on_side mesh q k e1) eqn:H1, (edge_on_side mesh q k e2) eqn:H2;
    try done.
  destruct (edge_on_side_range mesh _ _ _ H1) as (Hq & Hk & _).
  destruct (side_edge_spec mesh Hmesh q k Hq Hk) as (e & _ & _ & Huniq).
  by rewrite (Huniq _ H1), (Huniq _ H2).
Qed.

Lemma kernel_threads_commute_witness :
  let thread :=
    _compute_quad_edge_indices_kernel
      (Quadmesh2D.edge_quad_indices strip_mesh)
      (Quadmesh2D.edge_vertex_indices strip_mesh)
      (Quadmesh2D.quad_vertex_indices strip_mesh) in
  (thread [Vec4i 9 9 9 9; Vec4i 9 9 9 9] 1 ≫= λ table1, thread table1 6)
  = (thread [Vec4i 9 9 9 9; Vec4i 9 9 9 9] 6 ≫= λ table2, thread table2 1).
Proof.
  apply (kernel_threads_commute strip_mesh [Vec4i 9 9 9 9; Vec4i 9 9 9 9] 1 6);
    [reflexivity | reflexivity | unfold Quadmesh2D.side_count; simpl; lia
    | unfold Quadmesh2D.side_count; simpl; lia].
Defined.

(** X5.  On a consistent mesh the table computed by
    [_compute_quad_edge_indices] depends neither on the order in which
    the threads run nor on the content of the freshly allocated table. *)
Theorem builder_deterministic (mesh : Quadmesh2D.t)
    (uninit uninit' : list vec4i) (schedule schedule' : list Z) :
  mesh_consistent mesh = true →
  length uninit = length (Quadmesh2D.quad_vertex_indices mesh) →
  length uninit' = length (Quadmesh2D.quad_vertex_indices mesh) →
  is_schedule mesh schedule →
  is_schedule mesh schedule' →
  is_Some (_compute_quad_edge_indices mesh uninit schedule)
  ∧ _compute_quad_edge_indices mesh uninit schedule
    = _compute_quad_edge_indices mesh uninit' schedule'.
Proof.
  intros Hmesh Hlen Hlen' Hs Hs'.
  destruct (builder_correct mesh Hmesh uninit schedule Hlen Hs)
    as (table & -> & Hl & Hc).
  destruct (builder_correct mesh Hmesh uninit' schedule' Hlen' Hs')
    as (table' & -> & Hl' & Hc').
  split; [by eexists|]. f_equal. apply table_ext; [congruence|].
  intros q k.
  destruct (decide (0 ≤ q < Quadmesh2D.cell_count mesh ∧ 0 ≤ k ≤ 3)) as [[Hq Hk]|Hout].
  - by rewrite Hc, Hc'.
  - assert (∀ t : list vec4i,
              length t = length (Quadmesh2D.quad_vertex_indices mesh) →
              arr2_get t q k = None) as Hnone.
    { intros t Ht. unfold arr2_get.
      destruct (arr_get t q) as [row|] eqn:Hrow; [|done]. simpl.
      destruct (vec4_get row k) as [x|] eqn:Hx; [|done].
      apply arr_get_lt in Hrow. apply vec4_get_Some in Hx.
      exfalso. apply Hout. unfold Quadmesh2D.cell_count. lia. }
    by rewrite !Hnone.
Qed.

Lemma builder_deterministic_witness :
  _compute_quad_edge_indices strip_mesh
    [Vec4i 0 0 0 0; Vec4i 0 0 0 0] [0; 1; 2; 3; 4; 5; 6]
  = _compute_quad_edge_indices strip_mesh
      [Vec4i 7 7 7 7; Vec4i 8 8 8 8] [6; 3; 1; 5; 0; 2; 4].
Proof.
  apply (builder_deterministic strip_mesh);
    [reflexivity | reflexivity | reflexivity | exact (Permutation_refl _) |].
  unfold is_schedule. simpl.
  apply (bool_decide_unpack _). vm_compute. exact I.
Defined.

(** X6.  On a consistent mesh the computed table names, in cell
    [(q, k)], an edge that lists [q] among its quads and whose two
    vertices are the local vertices [k] and [(k + 1) mod 4] of [q]; and
    every edge is stored in a cell of each quad it lists. *)
Theorem builder_table_geometry (mesh : Quadmesh2D.t)
    (uninit : list vec4i) (schedule : list Z) :
  mesh_consistent mesh = true →
  length uninit = length (Quadmesh2D.quad_vertex_indices mesh) →
  is_schedule mesh schedule →
  ∃ table,
    _compute_quad_edge_indices mesh uninit schedule = Some table
    ∧ length table = length (Quadmesh2D.quad_vertex_indices mesh)
    ∧ (∀ q k, 0 ≤ q < Quadmesh2D.cell_count mesh → 0 ≤ k ≤ 3 →
         ∃ e edge_vtx edge_quads a b,
           arr2_get table q k = Some e
           ∧ arr_get (Quadmesh2D.edge_vertex_indices mesh) e = Some edge_vtx
           ∧ arr_get (Quadmesh2D.edge_quad_indices mesh) e = Some edge_quads
           ∧ (v2_0 edge_quads = q ∨ v2_1 edge_quads = q)
           ∧ arr2_get (Quadmesh2D.quad_vertex_indices mesh) q k = Some a
           ∧ arr2_get (Quadmesh2D.quad_vertex_indices mesh) q ((k + 1) `mod` 4) = Some b
           ∧ ((v2_0 edge_vtx = a ∧ v2_1 edge_vtx = b)
              ∨ (v2_1 edge_vtx = a ∧ v2_0 edge_vtx = b)))
    ∧ (∀ e edge_quads q,
         arr_get (Quadmesh2D.edge_quad_indices mesh) e = Some edge_quads →
         q = v2_0 edge_quads ∨ q = v2_1 edge_quads →
         ∃ k, arr2_get table q k = Some e).
Proof.
  intros Hmesh Hlen Hs.
  destruct (builder_correct mesh Hmesh uninit schedule Hlen Hs)
    as (table & Hrun & Hl & Hc).
  exists table. split; [done|]. split; [done|]. split.
  - intros q k Hq Hk.
    destruct (side_edge_spec mesh Hmesh q k Hq Hk) as (e & Hside & Hon & _).
    apply edge_on_side_spec in Hon
      as (edge_vtx & edge_quads & quad & a & b & Hev & Heq & Hquad & Hqs & Hinc & Hm).
    apply quad_side_Some in Hqs as (_ & Ha & Hb).
    apply edge_matches_spec in Hm.
    exists e, edge_vtx, edge_quads, a, b.
    split; [by rewrite Hc|]. repeat (split; [done|]).
    unfold arr2_get. rewrite Hquad. simpl. done.
  - intros e edge_quads q Heq Hq.
    destruct (mesh_consistent_spec mesh Hmesh) as (_ & Hlen' & _ & Hedge & _).
    assert (0 ≤ e < Quadmesh2D.side_count mesh) as He.
    { apply arr_get_lt in Heq. unfold Quadmesh2D.side_count. lia. }
    specialize (Hedge e He). unfold edge_ok in Hedge. rewrite Heq in Hedge.
    cbn [forallb] in Hedge. rewrite !andb_true_iff in Hedge.
    destruct Hedge as (H0 & H1 & _).
    assert (∃ k, edge_on_side mesh q k e = true) as [k Hon].
    { destruct Hq as [-> | ->];
        [apply existsb_exists in H0 as (k & _ & ?)
        | apply existsb_exists in H1 as (k & _ & ?)]; by exists k. }
    destruct (edge_on_side_range mesh _ _ _ Hon) as (Hqr & Hk & _).
    destruct (side_edge_spec mesh Hmesh q k Hqr Hk) as (e' & Hside & _ & Huniq).
    exists k. rewrite Hc by done. rewrite Hside. f_equal. symmetry. by apply Huniq.
Qed.

Lemma builder_table_geometry_witness :
  ∃ k, arr2_get strip_table 1 k = Some 1.
Proof.
  destruct (builder_table_geometry strip_mesh
              [Vec4i 0 0 0 0; Vec4i 0 0 0 0] [0; 1; 2; 3; 4; 5; 6])
    as (table & Hrun & _ & _ & Hall);
    [reflexivity | reflexivity | exact (Permutation_refl _) |].
  vm_compute in Hrun. injection Hrun as <-.
  exact (Hall 1 (Vec2i 0 1) 1 eq_refl (or_intror eq_refl)).
Defined.

Lemma arr_get_row_ext (table table' : list vec4i) (q : Z) :
  length table = length table' →
  (∀ k, arr2_get table q k = arr2_get table' q k) →
  arr_get table q = arr_get table' q.
Proof.
  intros Hlen Hcells.
  destruct (arr_get table q) as [r|] eqn:Hr.
  - destruct (arr_get_is_Some table' q) as [r' Hr'].
    { apply arr_get_lt in Hr. lia. }
    rewrite Hr'. f_equal. apply vec4_ext. intros k. specialize (Hcells k).
    unfold arr2_get in Hcells. by rewrite Hr, Hr' in Hcells.
  - destruct (arr_get table' q) as [r'|] eqn:Hr'; [|done].
    destruct (arr_get_is_Some table q) as [r Hr''].
    { apply arr_get_lt in Hr'. lia. }
    congruence.
Qed.

(** X7.  Whatever the mesh, a launch that completes keeps the shape of
    the table and leaves untouched every row of a quad that none of the
    scheduled edges lists: the builder writes only to the rows of the
    quads named in [edge_quad_indices]. *)
Theorem builder_writes_only_listed_rows (mesh : Quadmesh2D.t)
    (uninit table : list vec4i) (schedule : list Z) :
  _compute_quad_edge_indices mesh uninit schedule = Some table →
  length table = length uninit
  ∧ ∀ q,
      (∀ e edge_quads,
         e ∈ schedule →
         arr_get (Quadmesh2D.edge_quad_indices mesh) e = Some edge_quads →
         v2_0 edge_quads ≠ q ∧ v2_1 edge_quads ≠ q) →
      arr_get table q = arr_get uninit q.
Proof.
  unfold _compute_quad_edge_indices.
  revert uninit. induction schedule as [|e rest IH]; intros uninit Hrun.
  - simpl in Hrun. by simplify_eq.
  - cbn [launch] in Hrun.
    destruct (_compute_quad_edge_indices_kernel
                (Quadmesh2D.edge_quad_indices mesh)
                (Quadmesh2D.edge_vertex_indices mesh)
                (Quadmesh2D.quad_vertex_indices mesh) uninit e)
      as [table1|] eqn:Hstep; [|done].
    cbn [mbind option_bind] in Hrun.
    destruct (IH table1 Hrun) as [Hlen Hrows].
    destruct (kernel_Some_inv _ _ _ _ _ _ Hstep)
      as (edge_vtx & edge_quads & q0_vtx & q1_vtx & k0 & k1
          & Hev & Heq & Hq0 & Hq1 & Hf0 & Hf1 & Ht0 & Ht1).
    destruct (kernel_step _ _ _ uninit e _ _ _ _ _ _ Hev Heq Hq0 Hq1 Hf0 Hf1 Ht0 Ht1)
      as (written & Hstep' & Hlen1 & Hcells).
    rewrite Hstep in Hstep'. injection Hstep' as <-.
    split; [congruence|].
    intros q Hq. rewrite Hrows.
    + destruct (Hq e edge_quads ltac:(by left) Heq) as [Hne0 Hne1].
      apply arr_get_row_ext; [done|].
      intros k. rewrite Hcells. apply decide_False. intros [[-> _]|(_ & -> & _)]; done.
    + intros e' edge_quads' He'. apply Hq. by right.
Qed.

Lemma builder_writes_only_listed_rows_witness :
  arr_get [Vec4i 0 9 9 9; Vec4i 7 7 7 7] 1 = arr_get [Vec4i 9 9 9 9; Vec4i 7 7 7 7] 1.
Proof.
  destruct (builder_writes_only_listed_rows strip_mesh
              [Vec4i 9 9 9 9; Vec4i 7 7 7 7] [Vec4i 0 9 9 9; Vec4i 7 7 7 7] [0])
    as [_ Hrows]; [reflexivity|].
  apply Hrows. intros e edge_quads He Heq.
  apply list_elem_of_singleton in He. subst e.
  vm_compute in Heq. injection Heq as <-. simpl. split; discriminate.
Defined.

(** ** Construction on a consistent mesh *)

(** X8.  With a closed family and a consistent mesh, the constructor
    returns a topology: it neither raises nor leaves an unspecified
    table.  The device work is one allocation of [cell_count] rows of 4
    and one launch with a thread per edge; the topology holds the mesh,
    the shape and the table of the edges lying on the slots, and the
    struct built by [topo_arg_value] carries that table with the edge
    vertices and the counts of the mesh. *)
Theorem init_returns_topology {Polynomial : Type} (is_closed : Polynomial → bool)
    (mesh : Quadmesh2D.t) (shape : ShapeFunction.t Polynomial)
    (uninit : list vec4i) (schedule : list Z) :
  is_closed (ShapeFunction.family shape) = true →
  mesh_consistent mesh = true →
  length uninit = length (Quadmesh2D.quad_vertex_indices mesh) →
  is_schedule mesh schedule →
  ∃ topo,
    Quadmesh2DSpaceTopology.__init__ is_closed mesh shape uninit schedule
    = ([WpEmpty (Quadmesh2D.cell_count mesh) 4;
        WpLaunch (Quadmesh2D.side_count mesh)], Returned topo)
    ∧ Quadmesh2DSpaceTopology._mesh topo = mesh
    ∧ Quadmesh2DSpaceTopology._shape topo = shape
    ∧ table_correct mesh (Quadmesh2DSpaceTopology._quad_edge_indices topo)
    ∧ ∀ device,
        Quadmesh2DSpaceTopology.topo_arg_value_body topo device
        = topo_arg_of mesh (Quadmesh2DSpaceTopology._quad_edge_indices topo).
Proof.
  intros Hclosed Hmesh Hlen Hs.
  destruct (builder_correct mesh Hmesh uninit schedule Hlen Hs)
    as (table & Hrun & Htable).
  destruct (mesh_consistent_spec mesh Hmesh) as (_ & Hlen' & _).
  exists (Quadmesh2DSpaceTopology.Build Polynomial mesh shape table).
  unfold Quadmesh2DSpaceTopology.__init__. rewrite Hclosed, Hrun. simpl.
  split; [|done]. unfold Quadmesh2D.side_count. by rewrite Hlen'.
Qed.

Lemma init_returns_topology_witness :
  ∃ topo,
    Quadmesh2DSpaceTopology.__init__ (λ closed : bool, closed) strip_mesh
      (ShapeFunction.Build bool SquareBipolynomialShapeFunctions true 2 9 "Q2")
      [Vec4i 0 0 0 0; Vec4i 0 0 0 0] [0; 1; 2; 3; 4; 5; 6]
    = ([WpEmpty 2 4; WpLaunch 7], Returned topo)
    ∧ Quadmesh2DSpaceTopology._quad_edge_indices topo = strip_table.
Proof.
  destruct (init_returns_topology (λ closed : bool, closed) strip_mesh
              (ShapeFunction.Build bool SquareBipolynomialShapeFunctions true 2 9 "Q2")
              [Vec4i 0 0 0 0; Vec4i 0 0 0 0] [0; 1; 2; 3; 4; 5; 6])
    as (topo & Hinit & _);
    [reflexivity | reflexivity | reflexivity | exact (Permutation_refl _) |].
  exists topo. split; [exact Hinit|].
  vm_compute in Hinit. injection Hinit as <-. reflexivity.
Defined.


(** ** Further properties of the node indices *)


Lemma strip_table_correct : table_correct strip_mesh strip_table.
Proof.
  split; [reflexivity|]. intros q k Hq Hk.
  change (Quadmesh2D.cell_count strip_mesh) with 2 in Hq.
  assert (q = 0 ∨ q = 1) as [-> | ->] by lia;
    assert (k = 0 ∨ k = 1 ∨ k = 2 ∨ k = 3) as [-> | [-> | [-> | ->]]] by lia;
    reflexivity.
Qed.


(** X10.  At order 2 an edge carries a single node, and its index is
    [vertex_count + edge] whatever the orientation of the edge in the
    quad: the bipolynomial index of a node on slot [k], and the
    serendipity index of an edge node of index 0, are the vertex count
    plus the entry of the table for the slot. *)
Theorem order_two_edge_index (geo_arg : Quadmesh2D.t)
    (topo_arg : Quadmesh2DTopologyArg.t)
    (node_type_and_type_index : Z → node_type * Z)
    (side_offset_and_index : Z → Z * Z)
    (element_index k side_index local_vs : Z) (edge : vec2i) :
  arr2_get (Quadmesh2DTopologyArg.quad_edge_indices topo_arg) element_index k
    = Some side_index →
  arr2_get (Quadmesh2D.quad_vertex_indices geo_arg) element_index k = Some local_vs →
  arr_get (Quadmesh2DTopologyArg.edge_vertex_indices topo_arg) side_index = Some edge →
  (∀ n pos,
     locate 2 (n `div` (2 + 1)) (n - (2 + 1) * (n `div` (2 + 1))) = Some (OnSide k pos) →
     Quadmesh2DBipolynomialSpaceTopology.element_node_index
       2 geo_arg topo_arg element_index n
     = Some (Quadmesh2DTopologyArg.vertex_count topo_arg + side_index))
  ∧ (∀ n node_type type_index side_offset,
       node_type_and_type_index n = (node_type, type_index) →
       node_type ≠ VERTEX →
       side_offset_and_index type_index = (side_offset, 0) →
       (Quadmesh2DSerendipitySpaceTopology.side_start_and_index
          2 node_type side_offset 0).1 = k →
       Quadmesh2DSerendipitySpaceTopology.element_node_index
         node_type_and_type_index side_offset_and_index
         2 geo_arg topo_arg element_index n
       = Some (Quadmesh2DTopologyArg.vertex_count topo_arg + side_index)).
Proof.
  intros Hs Hl He. split.
  - intros n pos Hloc.
    destruct (locate_OnSide 2 _ _ _ _ ltac:(lia) Hloc) as (_ & Hpos & _).
    unfold Quadmesh2DBipolynomialSpaceTopology.element_node_index.
    rewrite (element_node_index_on_side 2 geo_arg topo_arg element_index n k pos
               side_index local_vs edge ltac:(lia) Hloc Hs Hl He).
    simpl. f_equal. case_decide; lia.
  - intros n node_type type_index side_offset Hn Hty Hoff Hslot.
    unfold Quadmesh2DSerendipitySpaceTopology.side_start_and_index in Hslot.
    rewrite (serendipity_edge_value node_type_and_type_index side_offset_and_index
               2 geo_arg topo_arg element_index n node_type type_index side_offset 0
               Hn Hty Hoff side_index local_vs edge).
    + f_equal. repeat case_decide; lia.
    + rewrite <- Hs. f_equal. rewrite <- Hslot. by repeat case_decide.
    + rewrite <- Hl. f_equal. rewrite <- Hslot. by repeat case_decide.
    + done.
Qed.

Lemma order_two_edge_index_witness :
  Quadmesh2DBipolynomialSpaceTopology.element_node_index
    2 strip_mesh (topo_arg_of strip_mesh strip_table) 1 1 = Some (6 + 1)
  ∧ Quadmesh2DSerendipitySpaceTopology.element_node_index
      sample_node_type_and_type_index sample_side_offset_and_index
      2 strip_mesh (topo_arg_of strip_mesh strip_table) 1 5 = Some (6 + 1).
Proof.
  destruct (order_two_edge_index strip_mesh (topo_arg_of strip_mesh strip_table)
              sample_node_type_and_type_index sample_side_offset_and_index
              1 3 1 4 (Vec2i 1 4) eq_refl eq_refl eq_refl) as [Hb Hs].
  split.
  - exact (Hb 1 1 eq_refl).
  - exact (Hs 5 EDGE_Y 0 0 eq_refl ltac:(discriminate) eq_refl eq_refl).
Defined.

(** X11.  At order 1 both topologies have one node per mesh vertex, and
    the four local nodes of a bipolynomial element are its local
    vertices 0, 3, 1, 2 in this order: the order that the serendipity
    topology applies to its vertex nodes. *)
Theorem order_one_nodes (geo_arg : Quadmesh2D.t) (topo_arg : Quadmesh2DTopologyArg.t)
    (element_index n : Z) :
  0 ≤ n < 4 →
  Quadmesh2DBipolynomialSpaceTopology.node_count geo_arg 1
  = Quadmesh2D.vertex_count geo_arg
  ∧ Quadmesh2DSerendipitySpaceTopology.node_count geo_arg 1
    = Quadmesh2D.vertex_count geo_arg
  ∧ Quadmesh2DBipolynomialSpaceTopology.element_node_index
      1 geo_arg topo_arg element_index n
    = (k ← vec4_get Quadmesh2DSerendipitySpaceTopology.SHAPE_TO_QUAD_IDX n;
       arr2_get (Quadmesh2D.quad_vertex_indices geo_arg) element_index k).
Proof.
  intros Hn.
  split; [unfold Quadmesh2DBipolynomialSpaceTopology.node_count; simpl; lia|].
  split; [unfold Quadmesh2DSerendipitySpaceTopology.node_count; lia|].
  unfold Quadmesh2DBipolynomialSpaceTopology.element_node_index,
    Quadmesh2DBipolynomialSpaceTopology.element_node_index_at.
  assert (n = 0 ∨ n = 1 ∨ n = 2 ∨ n = 3) as [-> | [-> | [-> | ->]]] by lia;
    simpl;
    match goal with
    | |- context [arr2_get ?a ?q ?k] => destruct (arr2_get a q k); reflexivity
    end.
Qed.

Lemma order_one_nodes_witness :
  Quadmesh2DBipolynomialSpaceTopology.element_node_index
    1 strip_mesh (topo_arg_of strip_mesh strip_table) 1 1 = Some 4.
Proof.
  destruct (order_one_nodes strip_mesh (topo_arg_of strip_mesh strip_table) 1 1)
    as (_ & _ & H); [lia|].
  exact H.
Defined.

(** ** The property panel of the kernel node *)

(** X13.  [find_prop] returns the first property of the sequence that
    has the given name, and [None], not an error, when no property has
    it; in particular on an empty sequence. *)
Theorem find_prop_first_match (props : list WarpKernel.UsdPropertyUiEntry)
    (name : string) :
  match WarpKernel.find_prop props name with
  | Some prop =>
      ∃ i : nat,
        props !! i = Some prop
        ∧ WarpKernel.prop_name prop = name
        ∧ ∀ (j : nat) other, props !! j = Some other → (j < i)%nat →
            WarpKernel.prop_name other ≠ name
  | None => ∀ prop, prop ∈ props → WarpKernel.prop_name prop ≠ name
  end.
Proof.
  unfold WarpKernel.find_prop.
  destruct (list_find (λ p, WarpKernel.prop_name p = name) props)
    as [[i prop]|] eqn:Hfind; simpl.
  - apply list_find_Some in Hfind as (Hi & Hname & Hfirst).
    exists i. split; [done|]. split; [done|]. intros j other Hj Hlt. by eapply Hfirst.
  - apply list_find_None in Hfind. rewrite Forall_forall in Hfind. exact Hfind.
Qed.

Section layout.
Variable props : list WarpKernel.UsdPropertyUiEntry.

Lemma find_prop_elem_of (name : string) (prop : WarpKernel.UsdPropertyUiEntry) :
  WarpKernel.find_prop props name = Some prop → prop ∈ props.
Proof.
  unfold WarpKernel.find_prop. intros H.
  destruct (list_find (λ p, WarpKernel.prop_name p = name) props)
    as [[i p]|] eqn:Hfind; simplify_eq/=.
  apply list_find_Some in Hfind as (Hi & _). by eapply list_elem_of_lookup_2.
Qed.

Lemma layout_input_inr (name : string)
    (build : WarpKernel.UsdPropertyUiEntry → option WarpKernel.builder)
    (frame frame' : list WarpKernel.CustomLayoutProperty) :
  WarpKernel.layout_input props name build frame = inr frame' →
  ∃ added, frame' = frame ++ added ∧ (length added ≤ 1)%nat ∧ Forall (WarpKernel.shows_property props) added.
Proof.
  unfold WarpKernel.layout_input.
  destruct (WarpKernel.find_prop props name) as [prop|] eqn:Hfind.
  - destruct (WarpKernel.ui_name prop) as [exn|display] eqn:Hui; [done|].
    intros [= <-]. eexists. split; [reflexivity|]. split; [simpl; lia|].
    apply Forall_singleton. split; [done|].
    exists prop, display. split; [by eapply find_prop_elem_of|done].
  - intros [= <-]. exists []. split; [by rewrite app_nil_r|]. split; [simpl; lia|done].
Qed.

Lemma layout_input_inl (name : string)
    (build : WarpKernel.UsdPropertyUiEntry → option WarpKernel.builder)
    (frame : list WarpKernel.CustomLayoutProperty) (exn : WarpKernel.exception) :
  WarpKernel.layout_input props name build frame = inl exn →
  ∃ prop key, prop ∈ props ∧ WarpKernel.ui_name prop = inl (WarpKernel.KeyError key)
              ∧ exn = WarpKernel.KeyError key.
Proof.
  unfold WarpKernel.layout_input.
  destruct (WarpKernel.find_prop props name) as [prop|] eqn:Hfind; [|done].
  destruct (WarpKernel.ui_name prop) as [exn'|display] eqn:Hui; [|done].
  intros [= <-]. apply find_prop_elem_of in Hfind.
  assert (∃ key, exn' = WarpKernel.KeyError key) as [key ->].
  { revert Hui. unfold WarpKernel.ui_name.
    repeat case_match; intros; simplify_eq; by eexists. }
  by exists prop, key.
Qed.

Lemma layout_dims_inr (indices : list Z)
    (frame frame' : list WarpKernel.CustomLayoutProperty) :
  WarpKernel.layout_dims props indices frame = inr frame' →
  ∃ added, frame' = frame ++ added ∧ (length added ≤ length indices)%nat
           ∧ Forall (WarpKernel.shows_property props) added.
Proof.
  revert frame. induction indices as [|i rest IH]; intros frame; simpl.
  - intros [= <-]. exists []. split; [by rewrite app_nil_r|]. split; [simpl; lia|done].
  - destruct (WarpKernel.layout_input props ("inputs:dim" +:+ pretty (i + 1))
                (λ _, None) frame) as [exn|frame1] eqn:Hstep; [done|].
    intros Hrest.
    apply layout_input_inr in Hstep as (added1 & -> & Hlen1 & Hshown1).
    apply IH in Hrest as (added2 & -> & Hlen2 & Hshown2).
    exists (added1 ++ added2). split; [by rewrite app_assoc|].
    split; [rewrite length_app; lia | by apply Forall_app].
Qed.

Lemma layout_dims_inl (indices : list Z)
    (frame : list WarpKernel.CustomLayoutProperty) (exn : WarpKernel.exception) :
  WarpKernel.layout_dims props indices frame = inl exn →
  ∃ prop key, prop ∈ props ∧ WarpKernel.ui_name prop = inl (WarpKernel.KeyError key)
              ∧ exn = WarpKernel.KeyError key.
Proof.
  revert frame. induction indices as [|i rest IH]; intros frame; simpl; [done|].
  destruct (WarpKernel.layout_input props ("inputs:dim" +:+ pretty (i + 1))
              (λ _, None) frame) as [exn'|frame1] eqn:Hstep.
  - intros [= <-]. by eapply layout_input_inl.
  - apply IH.
Qed.

(** The shape of a frame that [apply] returns. *)
Lemma apply_inr (dim_count_attr : Z) (code_provider_attr : string)
    (frame : list WarpKernel.CustomLayoutProperty) :
  WarpKernel.apply dim_count_attr code_provider_attr props = inr frame →
  (code_provider_attr = "embedded" ∨ code_provider_attr = "file")
  ∧ ∃ inputs,
      frame = WarpKernel.Property "Add and Remove Attributes" None None
                (Some (WarpKernel.edit_attrs_prop_builder
                         kernelnode.SUPPORTED_ATTR_TYPES)) :: inputs
      ∧ (Z.of_nat (length inputs) ≤ 4 + kernelnode.MAX_DIMENSIONS)
      ∧ Forall (WarpKernel.shows_property props) inputs.
Proof.
  unfold WarpKernel.apply.
  destruct (WarpKernel.layout_input props "inputs:device" _ _) as [?|f1] eqn:H1; [done|].
  destruct (WarpKernel.layout_input props "inputs:dimCount" _ f1) as [?|f2] eqn:H2; [done|].
  destruct (WarpKernel.layout_dims props _ f2) as [?|f3] eqn:H3; [done|].
  destruct (WarpKernel.layout_input props "inputs:codeProvider" _ f3) as [?|f4] eqn:H4;
    [done|].
  apply layout_input_inr in H1 as (a1 & -> & L1 & S1).
  apply layout_input_inr in H2 as (a2 & -> & L2 & S2).
  apply layout_dims_inr in H3 as (a3 & -> & L3 & S3).
  apply layout_input_inr in H4 as (a4 & -> & L4 & S4).
  rewrite length_seqZ in L3. unfold kernelnode.MAX_DIMENSIONS in *.
  intros H5.
  assert ((code_provider_attr = "embedded" ∨ code_provider_attr = "file")
          ∧ ∃ a5, frame = (((([WarpKernel.Property "Add and Remove Attributes" None None
                (Some (WarpKernel.edit_attrs_prop_builder
                         kernelnode.SUPPORTED_ATTR_TYPES))] ++ a1) ++ a2) ++ a3) ++ a4)
                          ++ a5
                  ∧ (length a5 ≤ 1)%nat ∧ Forall (WarpKernel.shows_property props) a5) as (Hcp & a5 & -> & L5 & S5).
  { repeat case_decide; [| |done];
      apply layout_input_inr in H5 as (a5 & -> & L5 & S5);
      (split; [by auto|]); by exists a5. }
  split; [done|].
  exists (a1 ++ a2 ++ a3 ++ a4 ++ a5). split; [by rewrite <- !app_assoc|].
  split; [rewrite !length_app; lia|].
  by repeat apply Forall_app_2.
Qed.

Lemma apply_inl (dim_count_attr : Z) (code_provider_attr : string)
    (exn : WarpKernel.exception) :
  WarpKernel.apply dim_count_attr code_provider_attr props = inl exn →
  (∃ prop key, prop ∈ props ∧ WarpKernel.ui_name prop = inl (WarpKernel.KeyError key)
               ∧ exn = WarpKernel.KeyError key)
  ∨ (code_provider_attr ≠ "embedded" ∧ code_provider_attr ≠ "file"
     ∧ exn = WarpKernel.RuntimeError
               ("Unexpected code provider '" +:+ code_provider_attr +:+ "'")).
Proof.
  unfold WarpKernel.apply.
  destruct (WarpKernel.layout_input props "inputs:device" _ _) as [?|f1] eqn:H1.
  { intros [= <-]. left. by eapply layout_input_inl. }
  destruct (WarpKernel.layout_input props "inputs:dimCount" _ f1) as [?|f2] eqn:H2.
  { intros [= <-]. left. by eapply layout_input_inl. }
  destruct (WarpKernel.layout_dims props _ f2) as [?|f3] eqn:H3.
  { intros [= <-]. left. by eapply layout_dims_inl. }
  destruct (WarpKernel.layout_input props "inputs:codeProvider" _ f3) as [?|f4] eqn:H4.
  { intros [= <-]. left. by eapply layout_input_inl. }
  repeat case_decide.
  - intros H5. left. by eapply layout_input_inl.
  - intros H5. left. by eapply layout_input_inl.
  - intros [= <-]. by right.
Qed.

End layout.

(** X14.  [apply] never returns a layout when the code provider is
    neither "embedded" nor "file"; its [RuntimeError] is raised in that
    case only, with the provider in the message; and when every property
    carries its UI name, [apply] returns a layout for the two providers
    and raises the [RuntimeError] for every other one. *)
Theorem apply_code_provider (dim_count_attr : Z) (code_provider_attr : string)
    (props : list WarpKernel.UsdPropertyUiEntry) :
  let expected := code_provider_attr = "embedded" ∨ code_provider_attr = "file" in
  let error :=
    WarpKernel.RuntimeError
      ("Unexpected code provider '" +:+ code_provider_attr +:+ "'") in
  let result := WarpKernel.apply dim_count_attr code_provider_attr props in
  (¬ expected → ∃ exn, result = inl exn)
  ∧ (∀ msg, result = inl (WarpKernel.RuntimeError msg) →
       ¬ expected ∧ WarpKernel.RuntimeError msg = error)
  ∧ ((∀ prop, prop ∈ props → ∃ name, WarpKernel.ui_name prop = inr name) →
     (expected → ∃ frame, result = inr frame) ∧ (¬ expected → result = inl error)).
Proof.
  intros expected error result. subst expected error result.
  pose proof (apply_inr props dim_count_attr code_provider_attr) as Hinr.
  pose proof (apply_inl props dim_count_attr code_provider_attr) as Hinl.
  destruct (WarpKernel.apply dim_count_attr code_provider_attr props)
    as [exn|frame] eqn:Happly.
  - specialize (Hinl exn eq_refl). split; [by eexists|]. split.
    + intros msg [= ->].
      destruct Hinl as [(prop & key & _ & _ & [=])|(H1 & H2 & ->)].
      split; [tauto|done].
    + intros Hui. split.
      * intros Hexp.
        destruct Hinl as [(prop & key & Hin & Hkey & _)|(H1 & H2 & _)]; [|tauto].
        destruct (Hui prop Hin) as [name Hname]. congruence.
      * intros _.
        destruct Hinl as [(prop & key & Hin & Hkey & _)|(H1 & H2 & ->)]; [|done].
        destruct (Hui prop Hin) as [name Hname]. congruence.
  - destruct (Hinr frame eq_refl) as [Hexp _]. split; [tauto|]. split; [done|].
    intros _. split; [by eexists|tauto].
Qed.

(** X15.  A layout returned by [apply] starts with the entry for
    editing the attributes and continues with at most
    [MAX_DIMENSIONS + 4] entries, whatever the value of the dimension
    count attribute; each of them lies in the group "Inputs" and shows a
    property that is present in [props], under the UI name of its
    metadata.  Properties missing from [props] are skipped. *)
Theorem apply_layout (dim_count_attr : Z) (code_provider_attr : string)
    (props : list WarpKernel.UsdPropertyUiEntry)
    (frame : list WarpKernel.CustomLayoutProperty) :
  WarpKernel.apply dim_count_attr code_provider_attr props = inr frame →
  ∃ inputs,
    frame = WarpKernel.Property "Add and Remove Attributes" None None
              (Some (WarpKernel.edit_attrs_prop_builder
                       kernelnode.SUPPORTED_ATTR_TYPES)) :: inputs
    ∧ Z.of_nat (length inputs) ≤ 4 + kernelnode.MAX_DIMENSIONS
    ∧ Forall (WarpKernel.shows_property props) inputs.
Proof.
  intros Happly. by destruct (apply_inr props _ _ _ Happly) as [_ ?].
Qed.

Lemma apply_layout_witness :
  ∃ inputs,
    WarpKernel.apply 7 "file"
      [WarpKernel.Entry "inputs:dim2" {[ "customData" := {[ "uiName" := "Dim 2" ]} ]};
       WarpKernel.Entry "inputs:codeFile" {[ "customData" := {[ "uiName" := "File" ]} ]}]
    = inr (WarpKernel.Property "Add and Remove Attributes" None None
             (Some (WarpKernel.edit_attrs_prop_builder
                      kernelnode.SUPPORTED_ATTR_TYPES)) :: inputs)
    ∧ Z.of_nat (length inputs) ≤ 8.
Proof.
  destruct (WarpKernel.apply 7 "file"
      [WarpKernel.Entry "inputs:dim2" {[ "customData" := {[ "uiName" := "Dim 2" ]} ]};
       WarpKernel.Entry "inputs:codeFile" {[ "customData" := {[ "uiName" := "File" ]} ]}])
    as [exn|frame] eqn:Happly.
  - vm_compute in Happly. discriminate Happly.
  - destruct (apply_layout _ _ _ _ Happly) as (inputs & Hframe & Hlen & _).
    exists inputs. split; [by rewrite Hframe | exact Hlen].
Defined.


